(** * PPO agent (train_agent.py): a shallow embedding and its properties

    The development follows [PPOAgent] of [src/train_agent.py]:
    [update_entropy_coef], [compute_advantages], [update] and [train].

    Outcomes.  A Python call returns, raises or loops: [result] has the
    three cases, and [let* x := m in k] sequences calls as Python does.

    Numbers.  The program computes on IEEE floats.  The embedding is
    generic in the number type: the class [Num] lists the operations the
    program applies to its floats, and every definition is written over an
    arbitrary instance.  Two instances are given: [float_Num] (Rocq's
    primitive binary64 floats, with NaN and the infinities) and [Qc_Num]
    (exact rationals).  Properties of the control flow and of the data flow
    are proved for every instance, hence for the floats.  Algebraic
    identities are proved under [ExactNum], the laws of exact arithmetic,
    which rounding breaks; the hypothesis is visible in each such statement.

    Arrays.  The reward list holds floats, so [np.zeros_like(rewards)] is a
    float64 array and a store into it keeps the value.  A tensor is kept as
    its rows; a rank-1 tensor is a single row, as broadcasting sees it.

    Collaborators.  The environment, the actor and critic networks, the
    optimizers, numpy's [sqrt] and TensorFlow's [exp] are not part of the
    file: they are parameters (class [MathLib], record [collab]).  The
    gradient tape and the optimizer step are one function of the loss, taken
    as a function of the network.  Logging, plotting and the final
    [actor.save] are left out. *)

From Stdlib Require Import ZArith QArith Qcanon Floats Field Lia Bool String.
From stdpp Require Import base list.

(** ** Python outcomes *)

Inductive exn : Type :=
  | IndexError            (* list index out of range *)
  | ValueError            (* np.reshape / np.vstack *)
  | ZeroDivisionError     (* int / int with a zero divisor *)
  | InvalidArgumentError (msg : string). (* TensorFlow: check_numerics, shapes *)

(** [Diverge] is the outcome of a [while] loop that was given too little
    fuel; it is not a Python exception. *)
Inductive result (A : Type) : Type :=
  | Ok (a : A)
  | Raise (e : exn)
  | Diverge.
Arguments Ok {A} a.
Arguments Raise {A} e.
Arguments Diverge {A}.

Definition bind {A B} (m : result A) (k : A -> result B) : result B :=
  match m with
  | Ok a => k a
  | Raise e => Raise e
  | Diverge => Diverge
  end.

Declare Scope py_scope.
Delimit Scope py_scope with py.
Notation "'let*' x ':=' m 'in' k" := (bind m (fun x => k))
  (at level 10, x name, m at level 100, k at level 200) : py_scope.
Notation "'let*' ' p ':=' m 'in' k" := (bind m (fun x => let 'p := x in k))
  (at level 10, p pattern, m at level 100, k at level 200) : py_scope.
Open Scope py_scope.

(** [l[i]] for [0 <= i] on a Python list. *)
Definition py_index {A} (l : list A) (i : nat) : result A :=
  match l !! i with
  | Some x => Ok x
  | None => Raise IndexError
  end.

(** [l[-1]]. *)
Definition py_last {A} (l : list A) : result A :=
  match last l with
  | Some x => Ok x
  | None => Raise IndexError
  end.

(** [for t in its: st = body(t, st)], stopping at the first exception. *)
Fixpoint for_each {S} (body : nat -> S -> result S) (its : list nat) (st : S)
  : result S :=
  match its with
  | [] => Ok st
  | t :: rest => let* st' := body t st in for_each body rest st'
  end.

(** [reversed(range(n))]. *)
Definition reversed_range (n : nat) : list nat := rev (seq 0 n).

(** ** Numbers *)

Class Num (F : Type) := {
  of_int : Z -> F;            (* a Python int used in float arithmetic *)
  add : F -> F -> F;
  sub : F -> F -> F;
  mul : F -> F -> F;
  div : F -> F -> F;
  neg : F -> F;
  ltb : F -> F -> bool;
  fmin : F -> F -> F;         (* np.minimum, tf.minimum *)
  fmax : F -> F -> F;         (* np.maximum, tf.maximum *)
  is_nan : F -> bool;         (* np.isnan *)
  is_inf : F -> bool;
  float32 : F -> F            (* np.float32, dtype=tf.float32: a rounding *)
}.

(** numpy's and TensorFlow's elementary functions. *)
Class MathLib (F : Type) := {
  sqrt : F -> F;
  exp : F -> F
}.

Definition is_finite `{Num F} (x : F) : bool := negb (is_nan x || is_inf x).

(** [1 - done] for a Python bool: an int, 0 or 1. *)
Definition one_minus `{Num F} (d : bool) : F := of_int (1 - Z.b2z d).

(** The literal [1e-8]. *)
Definition lit_1e_8 `{Num F} : F := div (of_int 1) (of_int 100000000).

(** The laws of exact arithmetic: a field of characteristic 0 in which
    [of_int] is the canonical map, [fmin] and [fmax] choose by [ltb], and
    the cast to float32 loses nothing. *)
Class ExactNum (F : Type) `{Num F} : Prop := {
  exact_field :
    field_theory (of_int 0) (of_int 1) add mul sub neg div
      (fun x => div (of_int 1) x) eq;
  of_int_succ : forall z, of_int (z + 1) = add (of_int z) (of_int 1);
  of_int_pos : forall z, (0 < z)%Z -> of_int z <> of_int 0;
  fmax_ltb : forall x y, fmax x y = if ltb x y then y else x;
  fmin_ltb : forall x y, fmin x y = if ltb y x then y else x;
  float32_exact : forall x, float32 x = x
}.

(** ** The agent's hyper-parameters ([PPOAgent.__init__]) *)

Record hyper (F : Type) := {
  gamma : F;
  epsilon : F;
  gaelam : F;
  min_entropy : F;
  max_entropy : F
}.
Arguments gamma {F} h.
Arguments epsilon {F} h.
Arguments gaelam {F} h.
Arguments min_entropy {F} h.
Arguments max_entropy {F} h.

(** The values [__init__] assigns: 0.99, 0.2, 0.95, 0.0001, 0.01. *)
Definition init_hyper `{Num F} : hyper F := {|
  gamma := div (of_int 99) (of_int 100);
  epsilon := div (of_int 2) (of_int 10);
  gaelam := div (of_int 95) (of_int 100);
  min_entropy := div (of_int 1) (of_int 10000);
  max_entropy := div (of_int 1) (of_int 100)
|}.

(** ** numpy reductions *)

Section Numpy.
Context {F : Type} `{Num F} `{MathLib F}.

Definition np_sum (xs : list F) : F := foldl add (of_int 0) xs.

(** [xs.mean()]: the sum divided by the number of elements. *)
Definition np_mean (xs : list F) : F :=
  div (np_sum xs) (of_int (Z.of_nat (length xs))).

(** [xs.std()]: the square root of the mean of the squared deviations. *)
Definition np_std (xs : list F) : F :=
  let m := np_mean xs in
  sqrt (np_mean (map (fun x => mul (sub x m) (sub x m)) xs)).

(** [np.clip(a, lo, hi)] is [np.minimum(hi, np.maximum(a, lo))]. *)
Definition np_clip (a lo hi : F) : F := fmin (fmax a lo) hi.

(** [np.zeros_like(l)] for a list of floats. *)
Definition np_zeros_like (l : list F) : list F :=
  replicate (length l) (of_int 0).
End Numpy.

(** ** [update_entropy_coef] *)

Section Entropy.
Context {F : Type} `{Num F}.
Variable hp : hyper F.

(** [episode / max_episodes] on Python ints: true division, which raises
    on a zero divisor. *)
Definition py_truediv (a b : Z) : result F :=
  if (b =? 0)%Z then Raise ZeroDivisionError
  else Ok (div (of_int a) (of_int b)).

Definition update_entropy_coef (episode max_episodes : Z) : result F :=
  let* frac := py_truediv episode max_episodes in
  let entropy_coef :=
    sub (max_entropy hp)
        (mul (sub (max_entropy hp) (min_entropy hp)) frac) in
  let entropy_coef :=
    np_clip entropy_coef (min_entropy hp) (max_entropy hp) in
  Ok (float32 entropy_coef).
End Entropy.

(** ** [compute_advantages] *)

Section GAE.
Context {F : Type} `{Num F} `{MathLib F}.
Variable hp : hyper F.

(** The arrays and the scalar the loop updates. *)
Record gae_state := {
  advantages : list F;
  returns : list F;
  last_gae : F
}.

(** The branch on [t == len(rewards) - 1]. *)
Definition gae_next (rewards values : list F) (dones : list bool) (t : nat)
  : result (F * bool) :=
  if (Z.of_nat t =? Z.of_nat (length rewards) - 1)%Z then
    let* next_value := py_last values in
    let* next_done := py_index dones t in
    Ok (next_value, next_done)
  else
    let* next_value := py_index values (t + 1) in
    let* next_done := py_index dones (t + 1) in
    Ok (next_value, next_done).

(** [delta = rewards[t] + gamma * next_value * (1 - next_done) - values[t]] *)
Definition td_delta (r next_value : F) (next_done : bool) (v : F) : F :=
  sub (add r (mul (mul (gamma hp) next_value) (one_minus next_done))) v.

(** [delta + gamma * gaelam * (1 - next_done) * last_gae] *)
Definition gae_value (delta : F) (next_done : bool) (last : F) : F :=
  add delta
      (mul (mul (mul (gamma hp) (gaelam hp)) (one_minus next_done)) last).

(** One iteration of the loop.  [advantages[t] = last_gae = e] stores [e]
    in both; [returns[t]] reads [advantages[t]] back. *)
Definition gae_body (rewards values : list F) (dones : list bool)
    (t : nat) (st : gae_state) : result gae_state :=
  let* '(next_value, next_done) := gae_next rewards values dones t in
  let* r := py_index rewards t in
  let* v := py_index values t in
  let delta := td_delta r next_value next_done v in
  let g := gae_value delta next_done (last_gae st) in
  let* _ := py_index (advantages st) t in
  let advantages' := <[t := g]> (advantages st) in
  let* a := py_index advantages' t in
  let* v' := py_index values t in
  let* _ := py_index (returns st) t in
  Ok {| advantages := advantages';
        returns := <[t := add a v']> (returns st);
        last_gae := g |}.

(** The reverse scan: everything before the normalization. *)
Definition gae_scan (rewards values : list F) (dones : list bool)
  : result gae_state :=
  let st0 := {| advantages := np_zeros_like rewards;
                returns := np_zeros_like rewards;
                last_gae := of_int 0 |} in
  let* _ := py_last values in
  for_each (gae_body rewards values dones)
           (reversed_range (length rewards)) st0.

(** [(advantages - advantages.mean()) / (advantages.std() + 1e-8)] *)
Definition normalize (xs : list F) : list F :=
  let m := np_mean xs in
  let s := np_std xs in
  map (fun a => div (sub a m) (add s lit_1e_8)) xs.

Definition compute_advantages (rewards values : list F) (dones : list bool)
  : result (list F * list F) :=
  let* st := gae_scan rewards values dones in
  Ok (normalize (advantages st), returns st).
End GAE.

Arguments gae_state F : clear implicits.

(** ** Instances *)

(** Exact rationals. *)
#[export] Instance Qc_Num : Num Qc := {|
  of_int z := Q2Qc (inject_Z z);
  add := Qcplus;
  sub := Qcminus;
  mul := Qcmult;
  div := Qcdiv;
  neg := Qcopp;
  ltb x y := negb (Qle_bool y x);
  fmin x y := if negb (Qle_bool x y) then y else x;
  fmax x y := if negb (Qle_bool y x) then y else x;
  is_nan _ := false;
  is_inf _ := false;
  float32 x := x
|}.

(** IEEE binary64.  [of_int] is exact for integers below 2^53 in absolute
    value; [fmin] and [fmax] propagate NaN as numpy's do. *)
Definition float_of_int (z : Z) : float :=
  match z with
  | Z0 => PrimFloat.of_uint63 (Uint63.of_Z 0)
  | Zpos _ => PrimFloat.of_uint63 (Uint63.of_Z z)
  | Zneg p => PrimFloat.opp (PrimFloat.of_uint63 (Uint63.of_Z (Zpos p)))
  end.

(** Rounding to binary32, kept as a binary64. *)
Definition float_to_32 (x : float) : float :=
  match Prim2SF x with
  | S754_finite s m e =>
      match SpecFloat.binary_round 24 128 s m e with
      | S754_finite s' m' e' =>
          SF2Prim (SpecFloat.binary_round 53 1024 s' m' e')
      | y => SF2Prim y
      end
  | _ => x
  end.

#[export] Instance float_Num : Num float := {|
  of_int := float_of_int;
  add := PrimFloat.add;
  sub := PrimFloat.sub;
  mul := PrimFloat.mul;
  div := PrimFloat.div;
  neg := PrimFloat.opp;
  ltb := PrimFloat.ltb;
  fmin x y := if PrimFloat.is_nan x then x else if PrimFloat.is_nan y then y
              else if PrimFloat.ltb y x then y else x;
  fmax x y := if PrimFloat.is_nan x then x else if PrimFloat.is_nan y then y
              else if PrimFloat.ltb x y then y else x;
  is_nan := PrimFloat.is_nan;
  is_inf := PrimFloat.is_infinity;
  float32 := float_to_32
|}.

(** ** Tensors

    A tensor is kept as its rows.  A rank-1 tensor of [n] elements is the
    single row [[x1; ...; xn]]: broadcasting treats it exactly so (a leading
    dimension 1 is added).  A tensor of shape (n, 1) is a column. *)

Definition tensor (F : Type) : Type := list (list F).

Section Tensor.
Context {F : Type} `{Num F} `{MathLib F}.

Definition vec (xs : list F) : tensor F := [xs].
Definition col (xs : list F) : tensor F := map (fun x => [x]) xs.

Definition rows (A : tensor F) : nat := length A.
Definition cols (A : tensor F) : nat :=
  match A with
  | [] => 0
  | r :: _ => length r
  end.

Definition tget (A : tensor F) (i j : nat) : F :=
  nth j (nth i A []) (of_int 0).

(** The broadcast of two dimensions: equal, or one of them is 1. *)
Definition bdim (a b : nat) : result nat :=
  if a =? b then Ok a
  else if a =? 1 then Ok b
  else if b =? 1 then Ok a
  else Raise (InvalidArgumentError "Incompatible shapes").

Definition bidx (n i : nat) : nat := if n =? 1 then 0 else i.

(** An elementwise binary operation under broadcasting. *)
Definition broadcast (f : F -> F -> F) (A B : tensor F) : result (tensor F) :=
  let* r := bdim (rows A) (rows B) in
  let* c := bdim (cols A) (cols B) in
  Ok (map (fun i =>
        map (fun j => f (tget A (bidx (rows A) i) (bidx (cols A) j))
                        (tget B (bidx (rows B) i) (bidx (cols B) j)))
            (seq 0 c))
        (seq 0 r)).

Definition tmap (f : F -> F) (A : tensor F) : tensor F := map (map f) A.

(** [tf.reduce_mean] over all the elements. *)
Definition reduce_mean (A : tensor F) : F := np_mean (concat A).

(** [tf.debugging.check_numerics]: fails on a NaN or an infinity. *)
Definition check_numerics (A : tensor F) (message : string)
  : result (tensor F) :=
  if forallb (forallb is_finite) A then Ok A
  else Raise (InvalidArgumentError message).

(** [tf.clip_by_value(t, lo, hi)] is [maximum(minimum(t, hi), lo)]. *)
Definition clip_by_value (lo hi x : F) : F := fmax (fmin x hi) lo.

(** [np.isnan(a).any()] *)
Definition np_isnan_any (A : tensor F) : bool := existsb (existsb is_nan) A.

(** [np.reshape(a, [1, d])]: the elements in order, as one row. *)
Definition np_reshape_row (d : nat) (A : tensor F) : result (tensor F) :=
  let flat := concat A in
  if length flat =? d then Ok [flat] else Raise ValueError.

(** [np.vstack(l)] for arrays of shape (1, d). *)
Definition np_vstack (l : list (tensor F)) : result (tensor F) :=
  match l with
  | [] => Raise ValueError
  | _ => Ok (concat l)
  end.

(** [tf.convert_to_tensor(l, dtype=tf.float32)] on a list of scalars and
    on an array. *)
Definition to_tensor32 (xs : list F) : tensor F := vec (map float32 xs).
Definition array_to_tensor32 (A : tensor F) : tensor F := tmap float32 A.

(** [t[0, 0]] *)
Definition tensor_00 (A : tensor F) : result F :=
  match A with
  | (x :: _) :: _ => Ok x
  | _ => Raise (InvalidArgumentError "index out of bounds")
  end.
End Tensor.

(** ** Collaborators

    The environment, the two networks and their optimizers.  A network
    value stands for its parameters (and, for the actor, its sampler's
    state); an optimizer step is given the loss as a function of the
    network, which is what the gradient tape differentiates. *)

Record collab (F : Type) := {
  Env : Type;
  Action : Type;
  RawAction : Type;
  Actor : Type;
  Critic : Type;
  ActorOpt : Type;
  CriticOpt : Type;
  (* env.reset() and env.step(action): next_state, reward, done *)
  env_reset : Env -> result (tensor F * Env);
  env_step : Env -> Action -> result (tensor F * F * bool * Env);
  (* self.actor(state, raw_actions=None): action, log_prob, raw_action *)
  actor_sample : Actor -> tensor F -> result (Action * F * RawAction * Actor);
  (* self.actor(states, training=True, raw_actions=...): log_probs, entropy *)
  actor_eval : Actor -> tensor F -> list RawAction ->
               result (tensor F * tensor F);
  (* self.critic.call(states, training=...) *)
  critic_call : Critic -> tensor F -> bool -> result (tensor F);
  (* tape.gradient(loss, vars); optimizer.apply_gradients(...) *)
  actor_step : ActorOpt -> (Actor -> result F) -> Actor ->
               result (ActorOpt * Actor);
  critic_step : CriticOpt -> (Critic -> result F) -> Critic ->
                result (CriticOpt * Critic)
}.
Arguments Env {F} c.
Arguments Action {F} c.
Arguments RawAction {F} c.
Arguments Actor {F} c.
Arguments Critic {F} c.
Arguments ActorOpt {F} c.
Arguments CriticOpt {F} c.
Arguments env_reset {F} c.
Arguments env_step {F} c.
Arguments actor_sample {F} c.
Arguments actor_eval {F} c.
Arguments critic_call {F} c.
Arguments actor_step {F} c.
Arguments critic_step {F} c.

(** ** [PPOAgent.update] *)

Section Update.
Context {F : Type} `{Num F} `{MathLib F}.
Variable C : collab F.

Record agent := {
  hp : hyper F;
  state_dim : nat;
  actor : Actor C;
  critic : Critic C;
  actor_optimizer : ActorOpt C;
  critic_optimizer : CriticOpt C
}.

(** [-tf.reduce_mean(tf.minimum(ratios * advantages,
                                clipped_ratios * advantages))] *)
Definition clipped_surrogate (h : hyper F) (ratios advantages : tensor F)
  : result F :=
  let clipped_ratios :=
    tmap (clip_by_value (sub (of_int 1) (epsilon h))
                        (add (of_int 1) (epsilon h))) ratios in
  let* surrogate1 := broadcast mul ratios advantages in
  let* surrogate2 := broadcast mul clipped_ratios advantages in
  let* m := broadcast fmin surrogate1 surrogate2 in
  Ok (neg (reduce_mean m)).

(** The body of the first gradient tape, as a function of the actor. *)
Definition actor_loss_full (h : hyper F) (states : tensor F)
    (raw_actions : list (RawAction C))
    (advantages log_probs_old : tensor F) (entropy_coef : F)
    (a : Actor C) : result F :=
  let* '(log_probs, entropy) := actor_eval C a states raw_actions in
  let* log_probs := check_numerics log_probs "log_probs contain NaN" in
  let* d := broadcast sub log_probs log_probs_old in
  let ratios := tmap exp d in
  let* ratios := check_numerics ratios "ratios contain NaN" in
  let* actor_loss := clipped_surrogate h ratios advantages in
  let entropy_bonus := reduce_mean entropy in
  Ok (sub actor_loss (mul entropy_coef entropy_bonus)).

(** The body of the second gradient tape, on the value estimates. *)
Definition critic_loss_of (returns values : tensor F) : result F :=
  let* d := broadcast sub returns values in
  Ok (reduce_mean (tmap (fun x => mul x x) d)).

Definition critic_loss (states returns : tensor F) (c : Critic C)
  : result F :=
  let* values := critic_call C c states true in
  critic_loss_of returns values.

(** [update]: the lists become rank-1 float32 tensors; the actor's tape
    runs and its optimizer steps, then the critic's.  [actions] is
    converted and not used. *)
Definition update (ag : agent) (states : tensor F)
    (actions : list (Action C))
    (advantages returns log_probs_old : list F) (entropy_coef : F)
    (raw_actions : list (RawAction C)) : result agent :=
  let states := array_to_tensor32 states in
  let log_probs_old := to_tensor32 log_probs_old in
  let advantages := to_tensor32 advantages in
  let returns := to_tensor32 returns in
  let loss_a :=
    actor_loss_full (hp ag) states raw_actions advantages
                    log_probs_old entropy_coef in
  let* _ := loss_a (actor ag) in
  let* '(opt_a, actor') := actor_step C (actor_optimizer ag) loss_a (actor ag) in
  let loss_c := critic_loss states returns in
  let* _ := loss_c (critic ag) in
  let* '(opt_c, critic') :=
    critic_step C (critic_optimizer ag) loss_c (critic ag) in
  Ok {| hp := hp ag; state_dim := state_dim ag;
        actor := actor'; critic := critic';
        actor_optimizer := opt_a; critic_optimizer := opt_c |}.
End Update.

Arguments hp {F C} a.
Arguments state_dim {F C} a.
Arguments actor {F C} a.
Arguments critic {F C} a.
Arguments actor_optimizer {F C} a.
Arguments critic_optimizer {F C} a.

(** ** [PPOAgent.train] *)

Section Train.
Context {F : Type} `{Num F} `{MathLib F}.
Variable C : collab F.

(** The lists one episode fills. *)
Record traj := {
  states : list (tensor F);
  actions : list (Action C);
  rewards : list F;
  dones : list bool;
  probs : list F;
  values_learned : list F;
  raw_actions : list (RawAction C)
}.

Definition empty_traj : traj :=
  {| states := []; actions := []; rewards := []; dones := []; probs := [];
     values_learned := []; raw_actions := [] |}.

(** The variables of the [while] loop.  The actor is threaded because
    sampling changes its sampler. *)
Record loop_state := {
  lp_env : Env C;
  lp_agent : agent C;
  lp_state : tensor F;
  lp_reward : F;            (* episode_reward *)
  lp_traj : traj
}.

(** What is live after the loop. *)
Record rollout_end := {
  end_env : Env C;
  end_agent : agent C;
  end_next_state : tensor F;  (* next_state *)
  end_reward : F;             (* episode_reward *)
  end_traj : traj;
  end_aborted : bool          (* left by the NaN [break] *)
}.

Inductive iter_outcome :=
  | Continue (st : loop_state)
  | Break (fin : rollout_end).

Definition with_actor (ag : agent C) (a : Actor C) : agent C :=
  {| hp := hp ag; state_dim := state_dim ag; actor := a;
     critic := critic ag; actor_optimizer := actor_optimizer ag;
     critic_optimizer := critic_optimizer ag |}.

(** [get_action]: [state.reshape(1, -1)], then the actor. *)
Definition get_action (ag : agent C) (state : tensor F)
  : result (Action C * F * RawAction C * Actor C) :=
  actor_sample C (actor ag) (array_to_tensor32 [concat state]).

(** [float(self.critic.call(s)[0, 0].numpy())] *)
Definition critic_scalar (ag : agent C) (s : tensor F) : result F :=
  let* v := critic_call C (critic ag) s false in
  tensor_00 v.

(** One pass through the body of [while not done], with the test that
    follows it. *)
Definition rollout_iter (st : loop_state) : result iter_outcome :=
  let ag := lp_agent st in
  let tr := lp_traj st in
  let* '(action, log_prob, raw_action, a') := get_action ag (lp_state st) in
  let ag' := with_actor ag a' in
  let* '(next_state, reward, done, e') := env_step C (lp_env st) action in
  if np_isnan_any next_state then
    Ok (Break {| end_env := e'; end_agent := ag';
                 end_next_state := next_state;
                 end_reward := lp_reward st;
                 end_traj := tr; end_aborted := true |})
  else
    let* next_state := np_reshape_row (state_dim ag) next_state in
    let* value_learned := critic_scalar ag' (lp_state st) in
    let tr' := {| states := states tr ++ [lp_state st];
                  actions := actions tr ++ [action];
                  rewards := rewards tr ++ [reward];
                  dones := dones tr ++ [done];
                  probs := probs tr ++ [log_prob];
                  values_learned := values_learned tr ++ [value_learned];
                  raw_actions := raw_actions tr ++ [raw_action] |} in
    let episode_reward := add (lp_reward st) reward in
    if done then
      Ok (Break {| end_env := e'; end_agent := ag';
                   end_next_state := next_state;
                   end_reward := episode_reward;
                   end_traj := tr'; end_aborted := false |})
    else
      Ok (Continue {| lp_env := e'; lp_agent := ag'; lp_state := next_state;
                      lp_reward := episode_reward; lp_traj := tr' |}).

(** The [while] loop; [done] is [False] on entry, so the body runs. *)
Fixpoint rollout (fuel : nat) (st : loop_state) : result rollout_end :=
  match fuel with
  | O => Diverge
  | S fuel' =>
      let* o := rollout_iter st in
      match o with
      | Continue st' => rollout fuel' st'
      | Break fin => Ok fin
      end
  end.

(** The value sequence handed to [compute_advantages]: the recorded
    estimates and the critic's estimate of [next_state]. *)
Definition bootstrap_values (fin : rollout_end) : result (list F) :=
  let* next_value_learned :=
    critic_scalar (end_agent fin) (end_next_state fin) in
  Ok (values_learned (end_traj fin) ++ [next_value_learned]).

(** The episode after its loop: bootstrap, advantages, coefficient,
    update. *)
Definition learn (fin : rollout_end) (episode max_episodes : Z)
  : result (agent C) :=
  let ag := end_agent fin in
  let tr := end_traj fin in
  let* values := bootstrap_values fin in
  let* '(advantages, returns) :=
    compute_advantages (hp ag) (rewards tr) values (dones tr) in
  let* entropy_coef := update_entropy_coef (hp ag) episode max_episodes in
  let* stacked := np_vstack (states tr) in
  update C ag stacked (actions tr) advantages returns (probs tr)
         entropy_coef (raw_actions tr).

(** What the [for] loop carries from one episode to the next. *)
Record train_state := {
  ts_env : Env C;
  ts_agent : agent C;
  all_rewards : list F
}.

Definition start_episode (ts : train_state) : result loop_state :=
  let* '(s0, e) := env_reset C (ts_env ts) in
  let* state := np_reshape_row (state_dim (ts_agent ts)) s0 in
  Ok {| lp_env := e; lp_agent := ts_agent ts; lp_state := state;
        lp_reward := of_int 0; lp_traj := empty_traj |}.

(** One episode.  The running average and the plot are left out. *)
Definition run_episode (fuel : nat) (max_episodes : Z) (episode : nat)
    (ts : train_state) : result train_state :=
  let* st := start_episode ts in
  let* fin := rollout fuel st in
  let* ag := learn fin (Z.of_nat episode) max_episodes in
  Ok {| ts_env := end_env fin; ts_agent := ag;
        all_rewards := all_rewards ts ++ [end_reward fin] |}.

(** [for episode in range(max_episodes)] from a given list of episodes. *)
Definition train_from (fuel : nat) (max_episodes : Z) (episodes : list nat)
    (ts : train_state) : result train_state :=
  for_each (run_episode fuel max_episodes) episodes ts.

Definition train (fuel : nat) (max_episodes : nat) (ts : train_state)
  : result train_state :=
  train_from fuel (Z.of_nat max_episodes) (seq 0 max_episodes) ts.
End Train.

Arguments states {F C} t.
Arguments actions {F C} t.
Arguments rewards {F C} t.
Arguments dones {F C} t.
Arguments probs {F C} t.
Arguments values_learned {F C} t.
Arguments raw_actions {F C} t.
Arguments lp_env {F C} l.
Arguments lp_agent {F C} l.
Arguments lp_state {F C} l.
Arguments lp_reward {F C} l.
Arguments lp_traj {F C} l.
Arguments end_env {F C} r.
Arguments end_agent {F C} r.
Arguments end_next_state {F C} r.
Arguments end_reward {F C} r.
Arguments end_traj {F C} r.
Arguments end_aborted {F C} r.
Arguments Continue {F C} st.
Arguments Break {F C} fin.
Arguments ts_env {F C} t.
Arguments ts_agent {F C} t.
Arguments all_rewards {F C} t.
Arguments advantages {F} g.
Arguments returns {F} g.
Arguments last_gae {F} g.

(** * Vocabulary of the statements, and examples *)

(** ** The reverse scan *)

Section GAESpec.
Context {F : Type} `{Num F}.
Variable h : hyper F.
Variables (rs vs : list F) (ds : list bool).

(** The value the recursion takes for [advantage[t+1]]: the stored one,
    and the seed 0 past the end. *)
Definition adv_after (adv : list F) (t : nat) : F :=
  default (of_int 0) (adv !! (t + 1)).

(** What iteration [t] leaves in [advantages[t]] and [returns[t]]. *)
Definition gae_at (adv ret : list F) (t : nat) : Prop :=
  exists r v nv nd,
    rs !! t = Some r /\ vs !! t = Some v /\
    gae_next rs vs ds t = Ok (nv, nd) /\
    adv !! t = Some (gae_value h (td_delta h r nv nd v) nd (adv_after adv t)) /\
    ret !! t =
      Some (add (gae_value h (td_delta h r nv nd v) nd (adv_after adv t)) v).

Definition gae_inv (n : nat) (st : gae_state F) : Prop :=
  length (advantages st) = length rs /\
  length (returns st) = length rs /\
  last_gae st = default (of_int 0) (advantages st !! n) /\
  forall t, n <= t < length rs -> gae_at (advantages st) (returns st) t.
End GAESpec.

(** ** Tensors *)

Section TensorSpec.
Context {F : Type} `{Num F}.


(** A tensor with a NaN or an infinity. *)
Definition has_nonfinite (A : tensor F) : bool :=
  existsb (existsb (fun x => negb (is_finite x))) A.
End TensorSpec.

(** ** The entropy coefficient *)

Section EntropySpec.
Context {F : Type} `{Num F}.
Variable h : hyper F.

(** [clamp(x, lo, hi)]: [lo] below [lo], [hi] above [hi], [x] between. *)
Definition clamp (x lo hi : F) : F :=
  if ltb x lo then lo else if ltb hi x then hi else x.

(** The coefficient as the specification words it: the linear term divided
    by [maxEntropy]. *)
Definition coefficient_as_stated (episode : Z) : F :=
  clamp (sub (max_entropy h)
             (div (mul (sub (max_entropy h) (min_entropy h)) (of_int episode))
                  (max_entropy h)))
        (min_entropy h) (max_entropy h).

(** The same with the episode index divided by the number of episodes. *)
Definition coefficient_by_episodes (episode max_episodes : Z) : F :=
  clamp (sub (max_entropy h)
             (mul (sub (max_entropy h) (min_entropy h))
                  (div (of_int episode) (of_int max_episodes))))
        (min_entropy h) (max_entropy h).
End EntropySpec.

(** ** The value loss *)

(** The mean of the elementwise squared differences
    [(returns[t] - values[t])^2]. *)
Definition mse_elementwise {F : Type} `{Num F} (returns values : list F) : F :=
  np_mean (zip_with (fun r v => mul (sub r v) (sub r v)) returns values).

(** ** The rollout *)

Section TrainSpec.
Context {F : Type} `{Num F} `{MathLib F}.
Variable C : collab F.

(** The lists of a trajectory have one entry per recorded step. *)
Definition aligned (tr : traj C) : Prop :=
  length (values_learned tr) = length (rewards tr) /\
  length (dones tr) = length (rewards tr) /\
  length (states tr) = length (rewards tr).

(** [continues k st st']: [k] passes of the loop body lead from [st] to
    [st'], none of them leaving the loop. *)
Fixpoint continues (k : nat) (st st' : loop_state C) : Prop :=
  match k with
  | O => st = st'
  | S k' =>
      exists st1, rollout_iter C st = Ok (Continue st1) /\ continues k' st1 st'
  end.
End TrainSpec.

(** ** Examples on rationals *)

(** The rationals have neither square roots nor exponentials; the statements
    below hold for every [MathLib], and the examples on rationals take this
    one. *)
#[export] Instance Qc_MathLib : MathLib Qc := {| sqrt x := x; exp x := x |}.


(** The worked example of the specification: three rewards 1, values 0,
    a terminal last step. *)
Definition ex_rewards : list Qc := [of_int 1; of_int 1; of_int 1].
Definition ex_values : list Qc := [of_int 0; of_int 0; of_int 0; of_int 0].
Definition ex_dones : list bool := [false; false; true].

(** ** A scripted run, for the examples on floats *)

(** An exponential for the examples: exact at NaN, at the infinities and at
    0; elsewhere the power series of [x / 1024], raised to the power 1024. *)
Fixpoint exp_series (n : nat) (x term acc k : float) : float :=
  match n with
  | O => acc
  | S n' =>
      let term' := PrimFloat.div (PrimFloat.mul term x) k in
      exp_series n' x term' (PrimFloat.add acc term')
                 (PrimFloat.add k (float_of_int 1))
  end.

Definition float_exp (x : float) : float :=
  if PrimFloat.is_nan x then x
  else if PrimFloat.is_infinity x then
    (if PrimFloat.ltb x (float_of_int 0) then float_of_int 0 else x)
  else
    let y := PrimFloat.div x (float_of_int 1024) in
    let e := exp_series 20 y (float_of_int 1) (float_of_int 1) (float_of_int 1) in
    Nat.iter 10 (fun z => PrimFloat.mul z z) e.

#[export] Instance float_MathLib : MathLib float :=
  {| sqrt := PrimFloat.sqrt; exp := float_exp |}.

(** The environment replays a list of (next state, reward, done); the
    networks are constant: the actor samples with log-probability
    [sample_log_prob] and re-evaluates to [eval_log_probs], the critic
    answers 0 for each row of its input, the optimizers change nothing. *)
Definition scripted (sample_log_prob : float) (eval_log_probs : tensor float)
  : collab float := {|
  Env := list (tensor float * float * bool);
  Action := unit;
  RawAction := unit;
  Actor := unit;
  Critic := unit;
  ActorOpt := unit;
  CriticOpt := unit;
  env_reset e := Ok ([[float_of_int 0]], e);
  env_step e _ :=
    match e with
    | [] => Raise ValueError
    | x :: e' => Ok (x, e')
    end;
  actor_sample a _ := Ok (tt, sample_log_prob, tt, a);
  actor_eval _ _ _ := Ok (eval_log_probs, [[float_of_int 0]]);
  critic_call _ s _ := Ok (col (map (fun _ => float_of_int 0) s));
  actor_step o _ a := Ok (o, a);
  critic_step o _ c := Ok (o, c)
|}.

Definition scripted_agent (C : collab float) (a : Actor C) (c : Critic C)
    (oa : ActorOpt C) (oc : CriticOpt C) : agent C :=
  {| hp := init_hyper; state_dim := 1; actor := a; critic := c;
     actor_optimizer := oa; critic_optimizer := oc |}.

Definition scripted_start (lp : float) (elp : tensor float)
    (script : list (tensor float * float * bool))
  : train_state (scripted lp elp) :=
  {| ts_env := (script : Env (scripted lp elp));
     ts_agent := scripted_agent (scripted lp elp) tt tt tt tt;
     all_rewards := [] |}.

Definition f_nan : float := PrimFloat.div (float_of_int 0) (float_of_int 0).
Definition f_inf : float := PrimFloat.div (float_of_int 1) (float_of_int 0).
Definition f_one : float := float_of_int 1.
Definition f_zero : float := float_of_int 0.

(** Two steps, the second terminal. *)
Definition script_two_steps : list (tensor float * float * bool) :=
  [([[f_one]], f_one, false); ([[f_one]], f_one, true)].

(** One step, then a state with a NaN. *)
Definition script_nan_second : list (tensor float * float * bool) :=
  [([[f_one]], f_one, false); ([[f_nan]], f_one, false)].

(** A state with a NaN at the first step. *)
Definition script_nan_first : list (tensor float * float * bool) :=
  [([[f_nan]], f_one, false)].

(** A state with an infinity at the first step, a terminal second step. *)
Definition script_inf_first : list (tensor float * float * bool) :=
  [([[f_inf]], f_one, false); ([[f_one]], f_one, true)].

(** * Properties *)

(** ** Python lists *)

Section PyLists.
Context {A : Type}.

Lemma py_index_lookup (l : list A) (i : nat) (x : A) :
  l !! i = Some x -> py_index l i = Ok x.
Proof. intros E. unfold py_index. now rewrite E. Qed.

Lemma py_index_lt (l : list A) (i : nat) :
  i < length l -> exists x, l !! i = Some x /\ py_index l i = Ok x.
Proof.
  intros Hi. destruct (lookup_lt_is_Some_2 l i Hi) as [x E].
  exists x. split; [exact E | now apply py_index_lookup].
Qed.

Lemma py_last_lookup (l : list A) (n : nat) (x : A) :
  length l = S n -> l !! n = Some x -> py_last l = Ok x.
Proof.
  intros Hl E. unfold py_last. rewrite last_lookup, Hl. simpl. now rewrite E.
Qed.

Lemma reversed_range_S (n : nat) :
  reversed_range (S n) = n :: reversed_range n.
Proof.
  unfold reversed_range. rewrite seq_S. simpl. now rewrite rev_app_distr.
Qed.
End PyLists.

(** ** The reverse scan *)

Section GAEProps.
Context {F : Type} `{Num F} `{MathLib F}.
Variable h : hyper F.
Variables (rs vs : list F) (ds : list bool).

Hypothesis Hvs : length vs = S (length rs).
Hypothesis Hds : length ds = length rs.

Lemma gae_next_last (t : nat) (nv : F) (nd : bool) :
  S t = length rs -> vs !! S t = Some nv -> ds !! t = Some nd ->
  gae_next rs vs ds t = Ok (nv, nd).
Proof using Hvs Hds.
  intros Ht Ev Ed. unfold gae_next.
  replace (Z.of_nat t =? Z.of_nat (length rs) - 1)%Z with true
    by (symmetry; apply Z.eqb_eq; lia).
  rewrite (py_last_lookup vs (S t) nv), (py_index_lookup ds t nd); auto.
  now rewrite Hvs, <- Ht.
Qed.

Lemma gae_next_inner (t : nat) (nv : F) (nd : bool) :
  S t < length rs -> vs !! S t = Some nv -> ds !! S t = Some nd ->
  gae_next rs vs ds t = Ok (nv, nd).
Proof using Hvs Hds.
  intros Ht Ev Ed. unfold gae_next.
  replace (Z.of_nat t =? Z.of_nat (length rs) - 1)%Z with false
    by (symmetry; apply Z.eqb_neq; lia).
  replace (t + 1) with (S t) by lia.
  now rewrite (py_index_lookup vs (S t) nv), (py_index_lookup ds (S t) nd).
Qed.

Lemma gae_next_total (t : nat) :
  t < length rs -> exists nv nd, gae_next rs vs ds t = Ok (nv, nd).
Proof using Hvs Hds.
  intros Ht.
  destruct (decide (S t = length rs)) as [E | E].
  - destruct (py_index_lt vs (S t)) as (nv & Ev & _); [lia |].
    destruct (py_index_lt ds t) as (nd & Ed & _); [lia |].
    exists nv, nd. now apply gae_next_last.
  - destruct (py_index_lt vs (S t)) as (nv & Ev & _); [lia |].
    destruct (py_index_lt ds (S t)) as (nd & Ed & _); [lia |].
    exists nv, nd. apply gae_next_inner; auto. lia.
Qed.

Lemma gae_at_frame (adv ret : list F) (n t : nat) (g x : F) :
  n < t -> gae_at h rs vs ds adv ret t -> gae_at h rs vs ds (<[n := g]> adv) (<[n := x]> ret) t.
Proof using Hvs Hds.
  intros Hn (r & v & nv & nd & Er & Ev & En & Ea & Et).
  exists r, v, nv, nd. unfold adv_after in *.
  rewrite !list_lookup_insert_ne by lia. auto.
Qed.

Lemma gae_body_inv (n : nat) (st : gae_state F) :
  n < length rs -> gae_inv h rs vs ds (S n) st ->
  exists st', gae_body h rs vs ds n st = Ok st' /\ gae_inv h rs vs ds n st'.
Proof using Hvs Hds.
  intros Hn (La & Lr & Hl & Hat).
  destruct (gae_next_total n Hn) as (nv & nd & En).
  destruct (py_index_lt rs n Hn) as (r & Er & Pr).
  destruct (py_index_lt vs n) as (v & Ev & Pv); [lia |].
  destruct (py_index_lt (advantages st) n) as (a0 & _ & Pa); [lia |].
  destruct (py_index_lt (returns st) n) as (r0 & _ & Pr0); [lia |].
  set (g := gae_value h (td_delta h r nv nd v) nd (last_gae st)).
  assert (Eg : <[n := g]> (advantages st) !! n = Some g)
    by (apply list_lookup_insert_eq; lia).
  eexists. split.
  - unfold gae_body. rewrite En. simpl. rewrite Pr. simpl. rewrite Pv. simpl.
    rewrite Pa. simpl. fold g. rewrite (py_index_lookup _ _ _ Eg). simpl.
    rewrite Pr0. simpl. reflexivity.
  - unfold gae_inv. simpl. rewrite !length_insert.
    split; [exact La |]. split; [exact Lr |]. split.
    + now rewrite Eg.
    + intros t Ht. destruct (decide (t = n)) as [-> | Hne].
      * exists r, v, nv, nd. unfold adv_after.
        rewrite (list_lookup_insert_ne _ n (n + 1)) by lia.
        replace (n + 1) with (S n) by lia. rewrite <- Hl. fold g.
        rewrite Eg. repeat split; auto.
        apply list_lookup_insert_eq. lia.
      * apply gae_at_frame; [lia |]. apply Hat. lia.
Qed.

Lemma gae_loop_inv (n : nat) :
  forall st, n <= length rs -> gae_inv h rs vs ds n st ->
  exists st', for_each (gae_body h rs vs ds) (reversed_range n) st = Ok st'
              /\ gae_inv h rs vs ds 0 st'.
Proof using Hvs Hds.
  induction n as [| n IH]; intros st Hn Hinv.
  - exists st. split; [reflexivity | exact Hinv].
  - rewrite reversed_range_S. simpl.
    destruct (gae_body_inv n st) as (st1 & E1 & I1); [lia | exact Hinv |].
    rewrite E1. simpl. apply IH; [lia | exact I1].
Qed.

Lemma gae_scan_inv :
  exists st, gae_scan h rs vs ds = Ok st /\ gae_inv h rs vs ds 0 st.
Proof using Hvs Hds.
  unfold gae_scan.
  destruct (py_index_lt vs (length rs)) as (b & Eb & _); [lia |].
  rewrite (py_last_lookup vs (length rs) b Hvs Eb). simpl.
  apply gae_loop_inv; [lia |].
  unfold gae_inv, np_zeros_like. simpl. rewrite !length_replicate.
  repeat split; auto; try lia.
  rewrite lookup_ge_None_2; [reflexivity | rewrite length_replicate; lia].
Qed.
End GAEProps.

(** ** Exact arithmetic *)

Section Exact.
Context {F : Type} `{ExactNum F}.

Lemma exact_ring : ring_theory (of_int 0) (of_int 1) add mul sub neg eq.
Proof. exact (F_R exact_field). Qed.

Add Field exact_fld : exact_field.

Lemma div_zero_l (y : F) : div (of_int 0) y = of_int 0.
Proof. rewrite (Fdiv_def exact_field). ring. Qed.

Lemma fmin_same (x : F) : fmin x x = x.
Proof. rewrite fmin_ltb. now destruct (ltb x x). Qed.

Lemma of_nat_succ (n : nat) :
  of_int (Z.of_nat (S n)) = add (of_int (Z.of_nat n)) (of_int 1).
Proof. rewrite Nat2Z.inj_succ. apply of_int_succ. Qed.





End Exact.

(** The rationals satisfy the laws. *)

Lemma Qc_of_int_this (z : Z) : this (of_int z : Qc) = inject_Z z.
Proof. simpl. apply Qred_identity. apply Z.gcd_1_r. Qed.

#[export] Instance Qc_Exact : ExactNum Qc.
Proof.
  split.
  - split.
    + exact Qcrt.
    + exact (F_1_neq_0 Qcft).
    + intros p q. simpl. unfold Qcdiv. now rewrite Qcmult_1_l.
    + intros p Hp. simpl. unfold Qcdiv. rewrite Qcmult_1_l.
      rewrite Qcmult_comm. now apply Qcmult_inv_r.
  - intros z. apply Qc_is_canon. simpl.
    rewrite !Qred_correct, inject_Z_plus. reflexivity.
  - intros z Hz E. apply (f_equal this) in E. rewrite !Qc_of_int_this in E.
    injection E as E. lia.
  - reflexivity.
  - reflexivity.
  - reflexivity.
Qed.

(** ** Claims on [compute_advantages] *)

(** C1.  For rewards of length T, values of length T+1 and dones of length T,
    the scan returns, and at every step t it stored
    [delta + gamma * gaelam * (1 - nextDone) * advantage[t+1]] (0 for
    [advantage[T]]) where, at the last step t = T-1, [nextValue] is
    [values[T]] and [nextDone] is [dones[T-1]], the step's own flag, and at
    every earlier step [nextValue] is [values[t+1]] and [nextDone] is
    [dones[t+1]]. *)
Theorem gae_scan_boundary_and_general {F : Type} `{Num F}
    (h : hyper F) (rs vs : list F) (ds : list bool) :
  length vs = S (length rs) -> length ds = length rs ->
  exists st, gae_scan h rs vs ds = Ok st /\
    forall t, t < length rs ->
      exists r v nv nd,
        rs !! t = Some r /\ vs !! t = Some v /\
        gae_next rs vs ds t = Ok (nv, nd) /\
        (S t = length rs -> vs !! length rs = Some nv /\ ds !! t = Some nd) /\
        (S t < length rs -> vs !! S t = Some nv /\ ds !! S t = Some nd) /\
        advantages st !! t =
          Some (gae_value h (td_delta h r nv nd v) nd
                  (adv_after (advantages st) t)).
Proof.
  intros Hvs Hds.
  destruct (gae_scan_inv h rs vs ds Hvs Hds) as (st & Est & _ & _ & _ & Hat).
  exists st. split; [exact Est |]. intros t Ht.
  destruct (Hat t) as (r & v & nv & nd & Er & Ev & En & Ea & _); [lia |].
  exists r, v, nv, nd. repeat split; auto.
  - destruct (py_index_lt vs (S t)) as (nv' & Ev' & _); [lia |].
    destruct (py_index_lt ds t) as (nd' & Ed' & _); [lia |].
    rewrite (gae_next_last rs vs ds Hvs Hds t nv' nd') in En by auto.
    injection En as -> ->. now rewrite <- H0.
  - destruct (py_index_lt vs (S t)) as (nv' & Ev' & _); [lia |].
    destruct (py_index_lt ds t) as (nd' & Ed' & _); [lia |].
    rewrite (gae_next_last rs vs ds Hvs Hds t nv' nd') in En by auto.
    now injection En as -> ->.
  - destruct (py_index_lt vs (S t)) as (nv' & Ev' & _); [lia |].
    destruct (py_index_lt ds (S t)) as (nd' & Ed' & _); [lia |].
    rewrite (gae_next_inner rs vs ds Hvs Hds t nv' nd') in En by (auto; lia).
    now injection En as -> ->.
  - destruct (py_index_lt vs (S t)) as (nv' & Ev' & _); [lia |].
    destruct (py_index_lt ds (S t)) as (nd' & Ed' & _); [lia |].
    rewrite (gae_next_inner rs vs ds Hvs Hds t nv' nd') in En by (auto; lia).
    now injection En as -> ->.
Qed.

Lemma gae_scan_boundary_and_general_witness :
  length ex_values = S (length ex_rewards) /\
  length ex_dones = length ex_rewards /\
  exists st, gae_scan init_hyper ex_rewards ex_values ex_dones = Ok st /\
    forall t, t < length ex_rewards ->
      exists r v nv nd,
        ex_rewards !! t = Some r /\ ex_values !! t = Some v /\
        gae_next ex_rewards ex_values ex_dones t = Ok (nv, nd) /\
        (S t = length ex_rewards ->
         ex_values !! length ex_rewards = Some nv /\ ex_dones !! t = Some nd) /\
        (S t < length ex_rewards ->
         ex_values !! S t = Some nv /\ ex_dones !! S t = Some nd) /\
        advantages st !! t =
          Some (gae_value init_hyper (td_delta init_hyper r nv nd v) nd
                  (adv_after (advantages st) t)).
Proof.
  split; [reflexivity |]. split; [reflexivity |].
  apply (gae_scan_boundary_and_general init_hyper ex_rewards ex_values ex_dones);
    reflexivity.
Defined.

(** C2.  For rewards of length T, values of length T+1 and dones of length T,
    [compute_advantages] returns the normalized advantages together with the
    returns array of the scan, which holds at every t the raw
    (pre-normalization) advantage plus [values[t]]; the returns are not
    normalized. *)
Theorem returns_raw_advantage_plus_value {F : Type} `{Num F} `{MathLib F}
    (h : hyper F) (rs vs : list F) (ds : list bool) :
  length vs = S (length rs) -> length ds = length rs ->
  exists st, gae_scan h rs vs ds = Ok st /\
    compute_advantages h rs vs ds
      = Ok (normalize (advantages st), returns st) /\
    forall t, t < length rs ->
      exists a v, advantages st !! t = Some a /\ vs !! t = Some v /\
                  returns st !! t = Some (add a v).
Proof.
  intros Hvs Hds.
  destruct (gae_scan_inv h rs vs ds Hvs Hds) as (st & Est & _ & _ & _ & Hat).
  exists st. split; [exact Est |]. split.
  - unfold compute_advantages. now rewrite Est.
  - intros t Ht.
    destruct (Hat t) as (r & v & nv & nd & Er & Ev & En & Ea & Et); [lia |].
    eauto.
Qed.

Lemma returns_raw_advantage_plus_value_witness :
  length ex_values = S (length ex_rewards) /\
  length ex_dones = length ex_rewards /\
  exists st, gae_scan init_hyper ex_rewards ex_values ex_dones = Ok st /\
    compute_advantages init_hyper ex_rewards ex_values ex_dones
      = Ok (normalize (advantages st), returns st) /\
    forall t, t < length ex_rewards ->
      exists a v, advantages st !! t = Some a /\ ex_values !! t = Some v /\
                  returns st !! t = Some (add a v).
Proof.
  split; [reflexivity |]. split; [reflexivity |].
  apply (returns_raw_advantage_plus_value init_hyper
           ex_rewards ex_values ex_dones); reflexivity.
Defined.



(** ** Lengths of the scan's arrays *)

Section GAELengths.
Context {F : Type} `{Num F}.
Variable h : hyper F.
Variables (rs vs : list F) (ds : list bool).

Lemma gae_body_lengths (t : nat) (st st' : gae_state F) :
  gae_body h rs vs ds t st = Ok st' ->
  length (advantages st') = length (advantages st) /\
  length (returns st') = length (returns st).
Proof.
  unfold gae_body, bind. intros E.
  repeat match type of E with
         | match ?m with _ => _ end = _ => destruct m; try discriminate
         end.
  inversion E; subst; clear E. simpl. now rewrite !length_insert.
Qed.

Lemma gae_loop_lengths (its : list nat) :
  forall st st', for_each (gae_body h rs vs ds) its st = Ok st' ->
  length (advantages st') = length (advantages st) /\
  length (returns st') = length (returns st).
Proof.
  induction its as [| t its IH]; intros st st' E; simpl in E.
  - now inversion E.
  - destruct (gae_body h rs vs ds t st) as [st1 | |] eqn:E1;
      try discriminate.
    simpl in E. destruct (gae_body_lengths t st st1 E1) as [A1 R1].
    destruct (IH st1 st' E) as [A2 R2]. split; congruence.
Qed.

Lemma gae_scan_lengths (st : gae_state F) :
  gae_scan h rs vs ds = Ok st ->
  length (advantages st) = length rs /\ length (returns st) = length rs.
Proof.
  unfold gae_scan. destruct (py_last vs); try discriminate. simpl.
  intros E. apply gae_loop_lengths in E. simpl in E.
  unfold np_zeros_like in E. now rewrite !length_replicate in E.
Qed.

Lemma normalize_length `{MathLib F} (xs : list F) :
  length (normalize xs) = length xs.
Proof. unfold normalize. apply length_map. Qed.
End GAELengths.

(** ** Tensors whose entries are all 0 *)

Section ZeroTensors.
Context {F : Type} `{ExactNum F}.

Add Ring exact_rng : exact_ring.








Lemma bdim_same (n : nat) : bdim n n = Ok n.
Proof. unfold bdim. now rewrite Nat.eqb_refl. Qed.

End ZeroTensors.






(** ** Claims on [update_entropy_coef] *)


Lemma np_clip_clamp {F : Type} `{ExactNum F} (x lo hi : F) :
  ltb hi lo = false -> np_clip x lo hi = clamp x lo hi.
Proof.
  intros Hb. unfold np_clip, clamp. rewrite fmin_ltb, fmax_ltb.
  destruct (ltb x lo); [now rewrite Hb | reflexivity].
Qed.

(** C4, as stated, fails: at episode 1 of 500 the code returns 0.0099802,
    and the stated formula, which divides by [maxEntropy], gives the lower
    bound 0.0001. *)
Lemma entropy_coef_not_divided_by_max_entropy :
  update_entropy_coef (F := Qc) init_hyper 1 500
    <> Ok (coefficient_as_stated init_hyper 1).
Proof.
  intros E.
  apply (f_equal (fun r => match r with Ok x => Some (this x) | _ => None end))
    in E.
  vm_compute in E. discriminate E.
Qed.

(** C4, amended.  In exact arithmetic, with [min_entropy <= max_entropy],
    for every episode index and every nonzero [max_episodes] the function
    returns [clamp(max_entropy - (max_entropy - min_entropy) *
    (episode / max_episodes), min_entropy, max_entropy)]: the episode index
    is divided by the number of episodes.  With [max_episodes = 0] the
    division raises.  The result is a function of the two arguments and the
    configured bounds only. *)
Theorem entropy_coef_divides_by_max_episodes {F : Type} `{ExactNum F}
    (h : hyper F) (episode max_episodes : Z) :
  ltb (max_entropy h) (min_entropy h) = false ->
  (max_episodes <> 0%Z ->
   update_entropy_coef h episode max_episodes
     = Ok (coefficient_by_episodes h episode max_episodes)) /\
  (max_episodes = 0%Z ->
   update_entropy_coef h episode max_episodes = Raise ZeroDivisionError).
Proof.
  intros Hb. unfold update_entropy_coef, py_truediv. split.
  - intros Hne. apply Z.eqb_neq in Hne. rewrite Hne. simpl.
    rewrite float32_exact, np_clip_clamp by exact Hb. reflexivity.
  - intros ->. reflexivity.
Qed.

Lemma entropy_coef_divides_by_max_episodes_witness :
  ltb (max_entropy (F := Qc) init_hyper) (min_entropy init_hyper) = false /\
  update_entropy_coef (F := Qc) init_hyper 1 500
    = Ok (coefficient_by_episodes init_hyper 1 500).
Proof.
  split; [reflexivity |].
  apply (entropy_coef_divides_by_max_episodes (F := Qc) init_hyper 1 500);
    [reflexivity | discriminate].
Defined.

(** ** Claims on the value loss *)

Lemma map_nth_seq {A B : Type} (g : A -> B) (l : list A) (d : A) :
  map (fun i => g (nth i l d)) (seq 0 (length l)) = map g l.
Proof.
  induction l as [| x l IH]; [reflexivity |].
  simpl. f_equal. rewrite <- seq_shift, map_map. exact IH.
Qed.

Lemma bidx_lt (n i : nat) : i < n -> bidx n i = i.
Proof.
  intros Hi. unfold bidx. destruct (n =? 1) eqn:E; [| reflexivity].
  apply Nat.eqb_eq in E. lia.
Qed.

Lemma bdim_one_l (n : nat) : bdim 1 n = Ok n.
Proof.
  unfold bdim. destruct (1 =? n) eqn:E; [| reflexivity].
  apply Nat.eqb_eq in E. now subst.
Qed.

Lemma bdim_one_r (n : nat) : bdim n 1 = Ok n.
Proof.
  unfold bdim. now destruct (n =? 1).
Qed.

(** What the second tape computes when the returns have shape (T,) and the
    critic's values shape (T, 1): the mean, over all pairs (i, j), of
    [(returns[j] - values[i])^2]. *)
Lemma critic_loss_of_column {F : Type} `{Num F} (rets vals : list F) :
  length rets = length vals ->
  critic_loss_of (vec rets) (col vals)
    = Ok (np_mean (concat (map (fun v =>
                     map (fun r => mul (sub r v) (sub r v)) rets) vals))).
Proof.
  intros Hlen. unfold critic_loss_of, broadcast.
  assert (Hr : rows (col vals) = length vals) by apply length_map.
  assert (Hc : bdim (length rets) (cols (col vals)) = Ok (length rets)).
  { unfold cols. destruct vals as [| v vals']; simpl.
    - rewrite Hlen. reflexivity.
    - apply bdim_one_r. }
  change (rows (vec rets)) with 1. rewrite Hr, bdim_one_l. simpl bind.
  rewrite Hc. simpl bind. unfold reduce_mean, tmap. do 3 f_equal.
  rewrite map_map. rewrite <- (map_nth_seq _ vals (of_int 0)).
  apply map_ext_in. intros i Hi. apply in_seq in Hi.
  rewrite map_map. rewrite <- (map_nth_seq _ rets (of_int 0)).
  apply map_ext_in. intros j Hj. apply in_seq in Hj.
  rewrite (bidx_lt (length rets) j) by lia.
  rewrite (bidx_lt (length vals) i) by lia.
  assert (Hcv : cols (col vals) = 1)
    by (destruct vals; simpl in *; [lia | reflexivity]).
  rewrite Hcv. unfold bidx. simpl (1 =? 1).
  cbv iota. unfold tget, vec, col. simpl (nth 0 [rets] []).
  rewrite (nth_indep _ [] [of_int 0]) by (rewrite length_map; lia).
  rewrite (map_nth (fun x => [x])). reflexivity.
Qed.

(** C3 at two states.  The critic's output has shape (T, 1), the returns
    shape (T,): their difference broadcasts to T x T, and the loss is the
    mean over all pairs.  With returns [0; 1] and values [[0]; [1]] the
    elementwise mean is 0 and the loss of the code is 1/2. *)
Lemma value_loss_broadcasts_over_pairs :
  critic_loss_of (F := Qc) (to_tensor32 [of_int 0; of_int 1])
                 (col [of_int 0; of_int 1])
    = Ok (div (of_int 1) (of_int 2)) /\
  mse_elementwise (F := Qc) [of_int 0; of_int 1] [of_int 0; of_int 1]
    = of_int 0 /\
  div (of_int 1) (of_int 2) <> (of_int 0 : Qc).
Proof.
  split; [| split].
  - unfold critic_loss_of. simpl. f_equal. apply Qc_is_canon. reflexivity.
  - apply Qc_is_canon. reflexivity.
  - intros E. apply (f_equal this) in E. vm_compute in E. discriminate E.
Qed.

(** ** The rollout *)

(** Case analysis on an equation [m = Ok _] whose left side is a chain of
    binds, pairs and tests. *)
Ltac bind_inv E :=
  unfold bind in E;
  repeat match type of E with
         | match ?m with _ => _ end = _ =>
             let Q := fresh "Q" in
             destruct m eqn:Q; simpl in E; try discriminate E
         end.

Section TrainProps.
Context {F : Type} `{Num F} `{MathLib F}.
Variable C : collab F.

Lemma aligned_empty : aligned C (empty_traj C).
Proof. repeat split. Qed.

Lemma rollout_iter_aligned (st : loop_state C) (o : iter_outcome C) :
  rollout_iter C st = Ok o -> aligned C (lp_traj st) ->
  match o with
  | Continue st' => aligned C (lp_traj st')
  | Break fin => aligned C (end_traj fin)
  end.
Proof.
  intros E (A1 & A2 & A3). unfold rollout_iter in E. bind_inv E;
    inversion E; subst; clear E; unfold aligned; simpl;
    rewrite ?length_app; simpl; repeat split; lia.
Qed.

Lemma rollout_aligned (fuel : nat) :
  forall (st : loop_state C) (fin : rollout_end C),
    rollout C fuel st = Ok fin -> aligned C (lp_traj st) ->
    aligned C (end_traj fin).
Proof.
  induction fuel as [| fuel IH]; intros st fin E Hal; simpl in E.
  - discriminate E.
  - destruct (rollout_iter C st) as [o | |] eqn:Eo; try discriminate E.
    simpl in E. pose proof (rollout_iter_aligned st o Eo Hal) as Ho.
    destruct o as [st' | fin'].
    + now apply (IH st').
    + now inversion E; subst.
Qed.

Lemma start_episode_traj (ts : train_state C) (st : loop_state C) :
  start_episode C ts = Ok st -> lp_traj st = empty_traj C.
Proof.
  unfold start_episode. intros E. bind_inv E. now inversion E.
Qed.

Lemma bootstrap_values_length (fin : rollout_end C) (values : list F) :
  bootstrap_values C fin = Ok values ->
  length values = S (length (values_learned (end_traj fin))).
Proof.
  unfold bootstrap_values. intros E. bind_inv E. inversion E; subst.
  rewrite length_app. simpl. lia.
Qed.

Lemma rollout_continues (k : nat) :
  forall (st st' : loop_state C) (fuel : nat),
    continues C k st st' -> rollout C (k + fuel) st = rollout C fuel st'.
Proof.
  induction k as [| k IH]; intros st st' fuel Hk; simpl in Hk.
  - now subst.
  - destruct Hk as (st1 & E1 & Hk). simpl. rewrite E1. simpl. now apply IH.
Qed.

Lemma continue_appends (st st1 : loop_state C) :
  rollout_iter C st = Ok (Continue st1) ->
  length (rewards (lp_traj st1)) = S (length (rewards (lp_traj st))).
Proof.
  intros E. unfold rollout_iter in E. bind_inv E; inversion E; subst.
  simpl. rewrite length_app. simpl. lia.
Qed.

Lemma continues_length (k : nat) :
  forall st st' : loop_state C,
    continues C k st st' ->
    length (rewards (lp_traj st')) = k + length (rewards (lp_traj st)).
Proof.
  induction k as [| k IH]; intros st st' Hk; simpl in Hk.
  - now subst.
  - destruct Hk as (st1 & E1 & Hk). rewrite (IH st1 st' Hk).
    rewrite (continue_appends st st1 E1). lia.
Qed.

(** The pass of the loop in which the environment returns a state with a
    NaN. *)
Lemma rollout_iter_nan (st : loop_state C) action log_prob raw_action a'
    ns reward done e' :
  get_action C (lp_agent st) (lp_state st)
    = Ok (action, log_prob, raw_action, a') ->
  env_step C (lp_env st) action = Ok (ns, reward, done, e') ->
  np_isnan_any ns = true ->
  rollout_iter C st
    = Ok (Break {| end_env := e'; end_agent := with_actor C (lp_agent st) a';
                   end_next_state := ns; end_reward := lp_reward st;
                   end_traj := lp_traj st; end_aborted := true |}).
Proof.
  intros Ea Ee En. unfold rollout_iter. rewrite Ea. simpl. rewrite Ee. simpl.
  now rewrite En.
Qed.

Lemma train_from_cons (fuel : nat) (max_episodes : Z) (episode : nat)
    (rest : list nat) (ts : train_state C) :
  train_from C fuel max_episodes (episode :: rest) ts
    = bind (run_episode C fuel max_episodes episode ts)
           (train_from C fuel max_episodes rest).
Proof. reflexivity. Qed.

(** [run_episode] once the loop has ended in [fin]. *)
Lemma run_episode_learn (fuel : nat) (max_episodes : Z) (episode : nat)
    (ts : train_state C) (st : loop_state C) (fin : rollout_end C) :
  start_episode C ts = Ok st -> rollout C fuel st = Ok fin ->
  run_episode C fuel max_episodes episode ts
    = bind (learn C fin (Z.of_nat episode) max_episodes)
           (fun ag => Ok {| ts_env := end_env fin; ts_agent := ag;
                            all_rewards := all_rewards ts ++ [end_reward fin] |}).
Proof.
  intros Es Er. unfold run_episode. rewrite Es. simpl. now rewrite Er.
Qed.

(** [learn] once its inputs to [update] are known. *)
Lemma learn_update (fin : rollout_end C) (episode max_episodes : Z)
    (values adv ret : list F) (coef : F) (X : tensor F) :
  bootstrap_values C fin = Ok values ->
  compute_advantages (hp (end_agent fin)) (rewards (end_traj fin)) values
                     (dones (end_traj fin)) = Ok (adv, ret) ->
  update_entropy_coef (hp (end_agent fin)) episode max_episodes = Ok coef ->
  np_vstack (states (end_traj fin)) = Ok X ->
  learn C fin episode max_episodes
    = update C (end_agent fin) X (actions (end_traj fin)) adv ret
             (probs (end_traj fin)) coef (raw_actions (end_traj fin)).
Proof.
  intros Eb Ec Ee Ev. unfold learn. rewrite Eb. simpl. rewrite Ec. simpl.
  rewrite Ee. simpl. now rewrite Ev.
Qed.
End TrainProps.

Section TrainClaims.
Context {F : Type} `{Num F} `{MathLib F}.
Variable C : collab F.

Lemma compute_advantages_total (h : hyper F) (rs vs : list F)
    (ds : list bool) :
  length vs = S (length rs) -> length ds = length rs ->
  exists adv ret, compute_advantages h rs vs ds = Ok (adv, ret).
Proof.
  intros Hvs Hds.
  destruct (gae_scan_inv h rs vs ds Hvs Hds) as (st & Est & _).
  unfold compute_advantages. rewrite Est. simpl. eauto.
Qed.

Lemma compute_advantages_lengths (h : hyper F) (rs vs : list F)
    (ds : list bool) (adv ret : list F) :
  compute_advantages h rs vs ds = Ok (adv, ret) ->
  length adv = length rs /\ length ret = length rs.
Proof.
  unfold compute_advantages. intros E.
  destruct (gae_scan h rs vs ds) as [st | |] eqn:Est; try discriminate E.
  simpl in E. inversion E; subst.
  destruct (gae_scan_lengths h rs vs ds st Est) as [La Lr].
  now rewrite normalize_length.
Qed.

Lemma continues_aligned (k : nat) :
  forall st st' : loop_state C,
    continues C k st st' -> aligned C (lp_traj st) -> aligned C (lp_traj st').
Proof.
  induction k as [| k IH]; intros st st' Hk Hal; simpl in Hk.
  - now subst.
  - destruct Hk as (st1 & E1 & Hk). apply (IH st1); [exact Hk |].
    exact (rollout_iter_aligned C st (Continue st1) E1 Hal).
Qed.

Lemma forallb_finite_nonfinite (A : tensor F) :
  forallb (forallb is_finite) A = negb (has_nonfinite A).
Proof.
  unfold has_nonfinite. induction A as [| r A IH]; simpl; [reflexivity |].
  rewrite IH, negb_orb. f_equal.
  induction r as [| x r IHr]; simpl; [reflexivity |].
  now rewrite IHr, negb_orb, negb_involutive.
Qed.

Lemma check_numerics_nonfinite (A : tensor F) (msg : string) :
  has_nonfinite A = true ->
  check_numerics A msg = Raise (InvalidArgumentError msg).
Proof.
  intros HA. unfold check_numerics.
  now rewrite forallb_finite_nonfinite, HA.
Qed.

Lemma check_numerics_finite (A : tensor F) (msg : string) :
  has_nonfinite A = false -> check_numerics A msg = Ok A.
Proof.
  intros HA. unfold check_numerics.
  now rewrite forallb_finite_nonfinite, HA.
Qed.
End TrainClaims.

(** ** Claims on [train] *)

(** C8.  When an episode's loop has ended and the bootstrap value is
    appended, the value sequence handed to [compute_advantages] is one longer
    than the rewards, the dones are as long as the rewards, and the call
    returns; and whatever its input, the advantages and the returns that
    [compute_advantages] returns are as long as the rewards. *)
Theorem gae_call_lengths {F : Type} `{Num F} `{MathLib F} (C : collab F)
    (fuel : nat) (ts : train_state C) (st : loop_state C)
    (fin : rollout_end C) (values : list F) :
  start_episode C ts = Ok st ->
  rollout C fuel st = Ok fin ->
  bootstrap_values C fin = Ok values ->
  length values = S (length (rewards (end_traj fin))) /\
  length (dones (end_traj fin)) = length (rewards (end_traj fin)) /\
  (exists adv ret,
     compute_advantages (hp (end_agent fin)) (rewards (end_traj fin)) values
                        (dones (end_traj fin)) = Ok (adv, ret)) /\
  (forall (h : hyper F) rs vs ds adv ret,
     compute_advantages h rs vs ds = Ok (adv, ret) ->
     length adv = length rs /\ length ret = length rs).
Proof.
  intros Es Er Eb.
  assert (Hal : aligned C (end_traj fin)).
  { apply (rollout_aligned C fuel st fin Er).
    rewrite (start_episode_traj C ts st Es). apply aligned_empty. }
  destruct Hal as (A1 & A2 & A3).
  pose proof (bootstrap_values_length C fin values Eb) as Lv.
  assert (Hv : length values = S (length (rewards (end_traj fin))))
    by congruence.
  split; [exact Hv |]. split; [exact A2 |]. split.
  - now apply compute_advantages_total.
  - intros h rs vs ds adv ret. apply compute_advantages_lengths.
Qed.

Lemma gae_call_lengths_witness :
  let C := scripted f_zero [[f_zero; f_zero]] in
  let ts := scripted_start f_zero [[f_zero; f_zero]] script_two_steps in
  exists st fin values,
    start_episode C ts = Ok st /\
    rollout C 5 st = Ok fin /\
    bootstrap_values C fin = Ok values /\
    length values = S (length (rewards (end_traj fin))) /\
    length (dones (end_traj fin)) = length (rewards (end_traj fin)) /\
    length (rewards (end_traj fin)) = 2.
Proof.
  intros C ts.
  edestruct (gae_call_lengths C 5 ts) as (Hv & Hd & _ & _);
    [lazy; reflexivity .. |].
  do 3 eexists.
  split; [lazy; reflexivity |]. split; [lazy; reflexivity |].
  split; [lazy; reflexivity |]. split; [exact Hv |].
  split; [exact Hd | reflexivity].
Defined.

(** C10.  In the pass of the loop where the environment returns a next state
    with a NaN, the loop is left with the trajectory as it was before the
    pass: nothing of the step is appended (the whole record of lists is
    unchanged) and its reward is not added to the episode's.  The bootstrap
    value is then obtained by calling the critic on that very next state,
    as the environment returned it: when the critic answers a tensor, its
    entry [0, 0] is appended to the recorded values; when the critic raises,
    so does the bootstrap; when its answer has no entry [0, 0], the indexing
    raises. *)
Theorem nan_abort_drops_step {F : Type} `{Num F} `{MathLib F} (C : collab F)
    (st : loop_state C) action log_prob raw_action a' ns reward done e' :
  get_action C (lp_agent st) (lp_state st)
    = Ok (action, log_prob, raw_action, a') ->
  env_step C (lp_env st) action = Ok (ns, reward, done, e') ->
  np_isnan_any ns = true ->
  exists fin,
    rollout_iter C st = Ok (Break fin) /\
    (forall fuel, rollout C (S fuel) st = Ok fin) /\
    end_aborted fin = true /\
    end_traj fin = lp_traj st /\
    end_reward fin = lp_reward st /\
    end_next_state fin = ns /\
    (forall x row rest,
       critic_call C (critic (lp_agent st)) ns false
         = Ok ((x :: row) :: rest) ->
       bootstrap_values C fin = Ok (values_learned (lp_traj st) ++ [x])) /\
    (forall e,
       critic_call C (critic (lp_agent st)) ns false = Raise e ->
       bootstrap_values C fin = Raise e) /\
    (forall out,
       critic_call C (critic (lp_agent st)) ns false = Ok out ->
       (out = [] \/ exists rest, out = [] :: rest) ->
       exists e, bootstrap_values C fin = Raise e).
Proof.
  intros Ea Ee En.
  pose proof (rollout_iter_nan C st _ _ _ _ _ _ _ _ Ea Ee En) as Ei.
  eexists. split; [exact Ei |]. split.
  - intros fuel. simpl. now rewrite Ei.
  - do 4 (split; [reflexivity |]).
    unfold bootstrap_values, critic_scalar. simpl. split; [| split].
    + intros x row rest Ec. now rewrite Ec.
    + intros e Ec. now rewrite Ec.
    + intros out Ec Hout. rewrite Ec. simpl.
      destruct Hout as [-> | [rest ->]]; simpl; eauto.
Qed.

Lemma nan_abort_drops_step_witness :
  let C := scripted f_zero [[f_zero]] in
  let ts := scripted_start f_zero [[f_zero]] script_nan_second in
  exists st0 st,
    start_episode C ts = Ok st0 /\
    rollout_iter C st0 = Ok (Continue st) /\
    np_isnan_any [[f_nan]] = true /\
    critic_call C (critic (lp_agent st)) [[f_nan]] false = Ok [[f_zero]] /\
    exists fin,
      rollout_iter C st = Ok (Break fin) /\
      (forall fuel, rollout C (S fuel) st = Ok fin) /\
      end_aborted fin = true /\
      end_traj fin = lp_traj st /\
      end_reward fin = lp_reward st /\
      end_next_state fin = [[f_nan]] /\
      bootstrap_values C fin = Ok (values_learned (lp_traj st) ++ [f_zero]).
Proof.
  intros C ts. do 2 eexists.
  split; [lazy; reflexivity |]. split; [lazy; reflexivity |].
  split; [reflexivity |]. split; [reflexivity |].
  lazymatch goal with
  | |- exists fin, rollout_iter _ ?s = _ /\ _ =>
      edestruct (nan_abort_drops_step C s)
        as (fin & E1 & E2 & E3 & E4 & E5 & E6 & Hb & _);
        [lazy; reflexivity | lazy; reflexivity | reflexivity |]
  end.
  exists fin. do 6 (split; [eassumption |]).
  apply (Hb f_zero [] []). reflexivity.
Defined.

(** C6, as stated, fails.  The test is [np.isnan]: a next state with an
    infinity, which is not finite, does not end the rollout, the state is
    recorded and a further step is collected.  And when the NaN comes at
    the first step, no transition is recorded, [np.vstack] of the empty list
    raises, and training stops instead of going on to the next episode. *)
Lemma nonfinite_state_not_always_truncated :
  let C := scripted f_zero [[f_zero; f_zero]] in
  (has_nonfinite [[f_inf]] = true /\
   exists st0 fin,
     start_episode C (scripted_start f_zero [[f_zero; f_zero]] script_inf_first)
       = Ok st0 /\
     rollout C 5 st0 = Ok fin /\
     end_aborted fin = false /\
     states (end_traj fin) = [[[f_zero]]; [[f_inf]]]) /\
  (np_isnan_any [[f_nan]] = true /\
   train C 5 2 (scripted_start f_zero [[f_zero; f_zero]] script_nan_first)
     = Raise ValueError).
Proof.
  intros C. split.
  - split; [reflexivity |]. do 2 eexists.
    split; [lazy; reflexivity |]. split; [lazy; reflexivity |].
    split; reflexivity.
  - split; reflexivity.
Qed.

(** C6, amended.  When, after k recorded steps of an episode, the
    environment returns a next state with a NaN, the rollout ends there
    whatever fuel is left: the k recorded transitions are kept as they are
    and nothing more is collected.  If the critic then evaluates that state,
    [compute_advantages] is called on the truncated trajectory and returns;
    and if the coefficient, the stacking of the recorded states and [update]
    on these advantages and returns succeed, the training loop goes on with
    the next episode, from the updated agent. *)
Theorem nan_state_truncates_episode {F : Type} `{Num F} `{MathLib F}
    (C : collab F) (k : nat) (ts : train_state C) (st0 st : loop_state C)
    action log_prob raw_action a' ns reward done e' :
  start_episode C ts = Ok st0 ->
  continues C k st0 st ->
  get_action C (lp_agent st) (lp_state st)
    = Ok (action, log_prob, raw_action, a') ->
  env_step C (lp_env st) action = Ok (ns, reward, done, e') ->
  np_isnan_any ns = true ->
  exists fin,
    (forall fuel, rollout C (k + S fuel) st0 = Ok fin) /\
    end_aborted fin = true /\
    end_traj fin = lp_traj st /\
    length (rewards (end_traj fin)) = k /\
    forall values, bootstrap_values C fin = Ok values ->
      exists adv ret,
        compute_advantages (hp (end_agent fin)) (rewards (end_traj fin))
                           values (dones (end_traj fin)) = Ok (adv, ret) /\
        forall fuel episode max_episodes rest coef X ag',
          update_entropy_coef (hp (end_agent fin)) (Z.of_nat episode)
                              max_episodes = Ok coef ->
          np_vstack (states (end_traj fin)) = Ok X ->
          update C (end_agent fin) X (actions (end_traj fin)) adv ret
                 (probs (end_traj fin)) coef (raw_actions (end_traj fin))
            = Ok ag' ->
          train_from C (k + S fuel) max_episodes (episode :: rest) ts
            = train_from C (k + S fuel) max_episodes rest
                {| ts_env := end_env fin; ts_agent := ag';
                   all_rewards := all_rewards ts ++ [end_reward fin] |}.
Proof.
  intros Es Hk Ea Ee En.
  pose proof (rollout_iter_nan C st _ _ _ _ _ _ _ _ Ea Ee En) as Ei.
  set (fin := {| end_env := e'; end_agent := with_actor C (lp_agent st) a';
                 end_next_state := ns; end_reward := lp_reward st;
                 end_traj := lp_traj st; end_aborted := true |}) in *.
  assert (Er : forall fuel, rollout C (k + S fuel) st0 = Ok fin).
  { intros fuel. rewrite (rollout_continues C k st0 st (S fuel) Hk).
    simpl. now rewrite Ei. }
  pose proof (start_episode_traj C ts st0 Es) as E0.
  assert (Hal : aligned C (lp_traj st)).
  { apply (continues_aligned C k st0 st Hk). rewrite E0. apply aligned_empty. }
  assert (Hlen : length (rewards (lp_traj st)) = k).
  { rewrite (continues_length C k st0 st Hk), E0. simpl. lia. }
  exists fin. split; [exact Er |]. split; [reflexivity |].
  split; [reflexivity |]. split; [exact Hlen |].
  intros values Eb.
  pose proof (bootstrap_values_length C fin values Eb) as Lv.
  destruct Hal as (A1 & A2 & A3).
  destruct (compute_advantages_total (hp (end_agent fin))
              (rewards (end_traj fin)) values (dones (end_traj fin)))
    as (adv & ret & Ec).
  { simpl in *. congruence. }
  { exact A2. }
  exists adv, ret. split; [exact Ec |].
  intros fuel episode max_episodes rest coef X ag' Ecoef EX Eu.
  rewrite train_from_cons.
  rewrite (run_episode_learn C _ max_episodes episode ts st0 fin Es (Er fuel)).
  rewrite (learn_update C fin _ _ values adv ret coef X Eb Ec Ecoef EX).
  rewrite Eu. reflexivity.
Qed.

Lemma nan_state_truncates_episode_witness :
  let C := scripted f_zero [[f_zero]] in
  let ts := scripted_start f_zero [[f_zero]] script_nan_second in
  exists st0 st,
    start_episode C ts = Ok st0 /\
    continues C 1 st0 st /\
    np_isnan_any [[f_nan]] = true /\
    exists fin,
      (forall fuel, rollout C (1 + S fuel) st0 = Ok fin) /\
      end_aborted fin = true /\
      end_traj fin = lp_traj st /\
      length (rewards (end_traj fin)) = 1 /\
      exists ag', train_from C 5 2 [0; 1] ts
                  = train_from C 5 2 [1]
                      {| ts_env := end_env fin; ts_agent := ag';
                         all_rewards := all_rewards ts ++ [end_reward fin] |}.
Proof.
  intros C ts. do 2 eexists.
  split; [lazy; reflexivity |].
  split; [eexists; split; [lazy; reflexivity | reflexivity] |].
  split; [reflexivity |].
  edestruct (nan_state_truncates_episode C 1 ts) as (fin & Er & Hab & Htr & Hl & Hrest);
    [lazy; reflexivity | eexists; split; [lazy; reflexivity | reflexivity]
    | lazy; reflexivity | lazy; reflexivity | reflexivity |].
  exists fin. split; [exact Er |]. split; [exact Hab |].
  split; [exact Htr |]. split; [exact Hl |].
  pose proof (Er 0) as E0. lazy in E0. inversion E0 as [Efin].
  rewrite <- Efin in Hrest.
  edestruct Hrest as (adv & ret & Ec & Hgo); [lazy; reflexivity |].
  lazy in Ec. inversion Ec; subst adv ret.
  eexists. rewrite <- Efin. eapply (Hgo 3 0 2%Z [1]); lazy; reflexivity.
Defined.

(** ** Claims on [update] *)

(** C5.  When the log-probabilities the actor recomputes contain a NaN or an
    infinity, or when they are finite and the ratios
    [exp(log_probs - log_probs_old)] contain one, [update] raises
    TensorFlow's InvalidArgumentError with the message of the failed check:
    it returns no agent, so no loss is used and no optimizer step is taken.
    When this is the [update] of an episode of the training loop, the loop
    ends with that error and runs no further episode. *)
Theorem nonfinite_log_probs_raise {F : Type} `{Num F} `{MathLib F}
    (C : collab F) (ag : agent C) (X : tensor F) (acts : list (Action C))
    (adv ret lpo : list F) (coef : F) (raws : list (RawAction C))
    (log_probs entropy : tensor F) :
  actor_eval C (actor ag) (array_to_tensor32 X) raws
    = Ok (log_probs, entropy) ->
  (has_nonfinite log_probs = true \/
   (has_nonfinite log_probs = false /\
    exists d, broadcast sub log_probs (to_tensor32 lpo) = Ok d /\
              has_nonfinite (tmap exp d) = true)) ->
  exists msg,
    (msg = "log_probs contain NaN"%string \/ msg = "ratios contain NaN"%string)
    /\ update C ag X acts adv ret lpo coef raws
         = Raise (InvalidArgumentError msg)
    /\ forall fuel max_episodes episode rest ts st fin values,
         start_episode C ts = Ok st ->
         rollout C fuel st = Ok fin ->
         bootstrap_values C fin = Ok values ->
         compute_advantages (hp (end_agent fin)) (rewards (end_traj fin))
                            values (dones (end_traj fin)) = Ok (adv, ret) ->
         update_entropy_coef (hp (end_agent fin)) (Z.of_nat episode)
                             max_episodes = Ok coef ->
         np_vstack (states (end_traj fin)) = Ok X ->
         end_agent fin = ag -> actions (end_traj fin) = acts ->
         probs (end_traj fin) = lpo -> raw_actions (end_traj fin) = raws ->
         train_from C fuel max_episodes (episode :: rest) ts
           = Raise (InvalidArgumentError msg).
Proof.
  intros Ea Hbad.
  assert (Hu : exists msg,
             (msg = "log_probs contain NaN"%string \/
              msg = "ratios contain NaN"%string) /\
             update C ag X acts adv ret lpo coef raws
               = Raise (InvalidArgumentError msg)).
  { destruct Hbad as [Hl | (Hl & d & Ed & Hr)].
    - exists "log_probs contain NaN"%string. split; [now left |].
      unfold update, actor_loss_full. rewrite Ea. simpl.
      now rewrite (check_numerics_nonfinite log_probs _ Hl).
    - exists "ratios contain NaN"%string. split; [now right |].
      unfold update, actor_loss_full. rewrite Ea. simpl.
      rewrite (check_numerics_finite log_probs _ Hl). simpl.
      rewrite Ed. simpl.
      now rewrite (check_numerics_nonfinite (tmap exp d) _ Hr). }
  destruct Hu as (msg & Hmsg & Hu). exists msg.
  split; [exact Hmsg |]. split; [exact Hu |].
  intros fuel max_episodes episode rest ts st fin values
         Es Er Eb Ec Ecoef EX <- <- <- <-.
  rewrite train_from_cons.
  rewrite (run_episode_learn C fuel max_episodes episode ts st fin Es Er).
  rewrite (learn_update C fin _ _ values adv ret coef X Eb Ec Ecoef EX).
  now rewrite Hu.
Qed.

Lemma nonfinite_log_probs_raise_witness :
  let C := scripted f_zero [[f_nan; f_zero]] in
  let ag := scripted_agent C tt tt tt tt in
  has_nonfinite [[f_nan; f_zero]] = true /\
  exists msg,
    (msg = "log_probs contain NaN"%string \/ msg = "ratios contain NaN"%string)
    /\ update C ag [[f_zero]; [f_one]] [tt; tt] [f_zero; f_zero]
              [f_one; f_one] [f_zero; f_zero] f_zero [tt; tt]
         = Raise (InvalidArgumentError msg)
    /\ train C 5 2 (scripted_start f_zero [[f_nan; f_zero]] script_two_steps)
         = Raise (InvalidArgumentError msg).
Proof.
  intros C ag. split; [reflexivity |].
  destruct (nonfinite_log_probs_raise C ag [[f_zero]; [f_one]] [tt; tt]
              [f_zero; f_zero] [f_one; f_one] [f_zero; f_zero] f_zero
              [tt; tt] [[f_nan; f_zero]] [[f_zero]])
    as (msg & Hmsg & Hu & _); [reflexivity | left; reflexivity |].
  exists msg. split; [exact Hmsg |]. split; [exact Hu |].
  destruct Hmsg as [-> | ->]; [reflexivity |].
  lazy in Hu. discriminate Hu.
Defined.

(** * Further properties of the code *)

(** ** The scan in exact arithmetic *)

Section GAEAlgebra.
Context {F : Type} `{ExactNum F}.
Variable h : hyper F.
Variables (rs vs : list F) (ds : list bool).

Add Field gae_fld : exact_field.

Lemma one_minus_true : one_minus true = (of_int 0 : F).
Proof. reflexivity. Qed.

Lemma td_delta_terminal (r nv v : F) : td_delta h r nv true v = sub r v.
Proof. unfold td_delta. rewrite one_minus_true. ring. Qed.

Lemma gae_value_terminal (delta last : F) : gae_value h delta true last = delta.
Proof. unfold gae_value. rewrite one_minus_true. ring. Qed.

Lemma lambda_return (r nv v last : F) (nd : bool) :
  add (gae_value h (td_delta h r nv nd v) nd last) v
    = add r (mul (mul (gamma h) (one_minus nd))
                 (add nv (mul (gaelam h) last))).
Proof. unfold gae_value, td_delta. ring. Qed.

Lemma lambda_return_gamma0 (r nv v last : F) (nd : bool) :
  gamma h = of_int 0 ->
  add (gae_value h (td_delta h r nv nd v) nd last) v = r.
Proof. intros E. rewrite lambda_return, E. ring. Qed.
End GAEAlgebra.

(** X1.  In exact arithmetic the return stored at step t is
    [rewards[t] + gamma * (1 - nextDone) *
     (nextValue + gaelam * advantage[t+1])]: the step's own value estimate
    cancels, so the critic's target at t does not depend on [values[t]]. *)
Theorem returns_are_lambda_returns {F : Type} `{ExactNum F}
    (h : hyper F) (rs vs : list F) (ds : list bool) :
  length vs = S (length rs) -> length ds = length rs ->
  exists st, gae_scan h rs vs ds = Ok st /\
    forall t, t < length rs ->
      exists r nv nd,
        rs !! t = Some r /\ gae_next rs vs ds t = Ok (nv, nd) /\
        returns st !! t =
          Some (add r (mul (mul (gamma h) (one_minus nd))
                           (add nv (mul (gaelam h)
                                        (adv_after (advantages st) t))))).
Proof.
  intros Hvs Hds.
  destruct (gae_scan_inv h rs vs ds Hvs Hds) as (st & Est & _ & _ & _ & Hat).
  exists st. split; [exact Est |]. intros t Ht.
  destruct (Hat t) as (r & v & nv & nd & Er & Ev & En & _ & Et); [lia |].
  exists r, nv, nd. repeat split; auto.
  rewrite Et. f_equal. apply lambda_return.
Qed.

Lemma returns_are_lambda_returns_witness :
  length ex_values = S (length ex_rewards) /\
  length ex_dones = length ex_rewards /\
  exists st, gae_scan init_hyper ex_rewards ex_values ex_dones = Ok st /\
    forall t, t < length ex_rewards ->
      exists r nv nd,
        ex_rewards !! t = Some r /\
        gae_next ex_rewards ex_values ex_dones t = Ok (nv, nd) /\
        returns st !! t =
          Some (add r (mul (mul (gamma init_hyper) (one_minus nd))
                           (add nv (mul (gaelam init_hyper)
                                        (adv_after (advantages st) t))))).
Proof.
  split; [reflexivity |]. split; [reflexivity |].
  apply (returns_are_lambda_returns init_hyper ex_rewards ex_values ex_dones);
    reflexivity.
Defined.

(** A policy with discount 0. *)
Definition hyper_gamma0 : hyper Qc := {|
  gamma := of_int 0;
  epsilon := div (of_int 2) (of_int 10);
  gaelam := div (of_int 95) (of_int 100);
  min_entropy := div (of_int 1) (of_int 10000);
  max_entropy := div (of_int 1) (of_int 100)
|}.

(** X2.  In exact arithmetic, with discount [gamma = 0], the returns
    [compute_advantages] gives back are the rewards themselves. *)
Theorem gamma0_returns_are_rewards {F : Type} `{ExactNum F} `{MathLib F}
    (h : hyper F) (rs vs : list F) (ds : list bool) :
  gamma h = of_int 0 ->
  length vs = S (length rs) -> length ds = length rs ->
  exists adv, compute_advantages h rs vs ds = Ok (adv, rs).
Proof.
  intros Hg Hvs Hds.
  destruct (gae_scan_inv h rs vs ds Hvs Hds)
    as (st & Est & _ & Lr & _ & Hat).
  exists (normalize (advantages st)).
  unfold compute_advantages. rewrite Est. simpl. do 2 f_equal.
  apply list_eq. intros t.
  destruct (decide (t < length rs)) as [Ht | Ht].
  - destruct (Hat t) as (r & v & nv & nd & Er & Ev & En & _ & Et); [lia |].
    rewrite Et, Er. f_equal. now apply lambda_return_gamma0.
  - rewrite !lookup_ge_None_2 by lia. reflexivity.
Qed.

Lemma gamma0_returns_are_rewards_witness :
  gamma hyper_gamma0 = of_int 0 /\
  length ex_values = S (length ex_rewards) /\
  length ex_dones = length ex_rewards /\
  exists adv,
    compute_advantages hyper_gamma0 ex_rewards ex_values ex_dones
      = Ok (adv, ex_rewards).
Proof.
  split; [reflexivity |]. split; [reflexivity |]. split; [reflexivity |].
  apply (gamma0_returns_are_rewards hyper_gamma0
           ex_rewards ex_values ex_dones); reflexivity.
Defined.

(** X3.  In exact arithmetic, when the last recorded step is terminal
    ([dones[T-1]] is true), the advantage of the last step and the advantage
    of the step before it are each the step's own reward minus its value:
    the flag consulted at step T-2 is [dones[T-1]], so neither the last
    reward nor any value estimate reaches step T-2. *)
Theorem terminal_flag_cuts_previous_step {F : Type} `{ExactNum F}
    (h : hyper F) (rs vs : list F) (ds : list bool) :
  length vs = S (length rs) -> length ds = length rs ->
  ds !! (length rs - 1) = Some true ->
  exists st, gae_scan h rs vs ds = Ok st /\
    forall t r v,
      S t = length rs \/ S (S t) = length rs ->
      rs !! t = Some r -> vs !! t = Some v ->
      advantages st !! t = Some (sub r v).
Proof.
  intros Hvs Hds Hd.
  destruct (gae_scan_inv h rs vs ds Hvs Hds) as (st & Est & _ & _ & _ & Hat).
  exists st. split; [exact Est |]. intros t r v Ht Er Ev.
  destruct (Hat t) as (r' & v' & nv & nd & Er' & Ev' & En & Ea & _); [lia |].
  rewrite Er in Er'. rewrite Ev in Ev'.
  injection Er' as <-. injection Ev' as <-.
  assert (End : nd = true).
  { destruct (py_index_lt vs (S t)) as (nv' & Ev1 & _); [lia |].
    destruct Ht as [Ht | Ht].
    - replace (length rs - 1) with t in Hd by lia.
      rewrite (gae_next_last rs vs ds Hvs Hds t nv' true) in En by auto.
      now injection En as _ <-.
    - replace (length rs - 1) with (S t) in Hd by lia.
      rewrite (gae_next_inner rs vs ds Hvs Hds t nv' true) in En
        by (auto; lia).
      now injection En as _ <-. }
  subst nd. rewrite Ea. f_equal.
  now rewrite gae_value_terminal, td_delta_terminal.
Qed.

Lemma terminal_flag_cuts_previous_step_witness :
  length ex_values = S (length ex_rewards) /\
  length ex_dones = length ex_rewards /\
  ex_dones !! (length ex_rewards - 1) = Some true /\
  exists st, gae_scan init_hyper ex_rewards ex_values ex_dones = Ok st /\
    forall t r v,
      S t = length ex_rewards \/ S (S t) = length ex_rewards ->
      ex_rewards !! t = Some r -> ex_values !! t = Some v ->
      advantages st !! t = Some (sub r v).
Proof.
  split; [reflexivity |]. split; [reflexivity |]. split; [reflexivity |].
  apply (terminal_flag_cuts_previous_step init_hyper
           ex_rewards ex_values ex_dones); reflexivity.
Defined.

(** ** The normalization in exact arithmetic *)

Section NormalizeMean.
Context {F : Type} `{ExactNum F} `{MathLib F}.

Add Field norm_fld : exact_field.

Lemma foldl_add_shift (xs : list F) (acc : F) :
  foldl add acc xs = add acc (foldl add (of_int 0) xs).
Proof.
  revert acc. induction xs as [| x xs IH]; intros acc; simpl.
  - ring.
  - rewrite (IH (add acc x)), (IH (add (of_int 0) x)). ring.
Qed.

Lemma np_sum_centered (xs : list F) (m c : F) :
  np_sum (map (fun a => div (sub a m) c) xs)
    = div (sub (np_sum xs) (mul (of_int (Z.of_nat (length xs))) m)) c.
Proof.
  unfold np_sum. set (ic := div (of_int 1) c).
  assert (Hd : forall x, div x c = mul x ic)
    by (intros x; apply (Fdiv_def exact_field)).
  clearbody ic. rewrite Hd.
  induction xs as [| x xs IH].
  - change (Z.of_nat (length (@nil F))) with 0%Z. simpl foldl. ring.
  - change (length (x :: xs)) with (S (length xs)). rewrite of_nat_succ.
    simpl map. simpl foldl. rewrite (foldl_add_shift (map _ xs)), IH.
    rewrite (foldl_add_shift xs (add (of_int 0) x)), Hd. ring.
Qed.

Lemma np_sum_minus_mean (xs : list F) :
  sub (np_sum xs) (mul (of_int (Z.of_nat (length xs))) (np_mean xs))
    = of_int 0.
Proof.
  destruct xs as [| x xs].
  - change (Z.of_nat (length (@nil F))) with 0%Z. unfold np_sum. simpl. ring.
  - unfold np_mean.
    assert (of_int (Z.of_nat (length (x :: xs))) <> of_int 0)
      by (apply of_int_pos; simpl; lia).
    now field.
Qed.
End NormalizeMean.

(** X4.  In exact arithmetic the advantages [compute_advantages] returns
    have mean 0, whatever the trajectory and whatever [std] computes. *)
Theorem normalized_advantages_have_mean_zero {F : Type} `{ExactNum F}
    `{MathLib F} (h : hyper F) (rs vs : list F) (ds : list bool)
    (adv ret : list F) :
  compute_advantages h rs vs ds = Ok (adv, ret) ->
  np_mean adv = of_int 0.
Proof.
  unfold compute_advantages. intros E.
  destruct (gae_scan h rs vs ds) as [st | |]; try discriminate E.
  simpl in E. inversion E; subst adv ret; clear E.
  unfold np_mean at 1. unfold normalize.
  rewrite np_sum_centered, np_sum_minus_mean, div_zero_l.
  apply div_zero_l.
Qed.

Lemma normalized_advantages_have_mean_zero_witness :
  exists adv ret,
    compute_advantages init_hyper ex_rewards ex_values ex_dones
      = Ok (adv, ret) /\
    np_mean adv = (of_int 0 : Qc).
Proof.
  do 2 eexists. split; [reflexivity |].
  eapply (normalized_advantages_have_mean_zero (F := Qc) init_hyper
            ex_rewards ex_values ex_dones). reflexivity.
Defined.

(** ** Inputs [compute_advantages] accepts and rejects *)

Section GAEInputs.
Context {F : Type} `{Num F}.
Variable h : hyper F.
Variables (rs vs : list F) (ds : list bool).

Lemma py_last_nonempty (l : list F) :
  l <> [] -> exists x, py_last l = Ok x.
Proof.
  intros Hl. unfold py_last. destruct (last l) as [x |] eqn:E; [eauto |].
  apply last_None in E. contradiction.
Qed.

Lemma gae_body_runs (t : nat) (st : gae_state F) :
  t < length rs -> vs <> [] -> length rs <= length vs ->
  length rs <= length ds ->
  length (advantages st) = length rs -> length (returns st) = length rs ->
  exists st', gae_body h rs vs ds t st = Ok st'.
Proof.
  intros Ht Hne Hvs Hds La Lr.
  assert (En : exists nv nd, gae_next rs vs ds t = Ok (nv, nd)).
  { unfold gae_next.
    destruct (Z.of_nat t =? Z.of_nat (length rs) - 1)%Z eqn:E.
    - destruct (py_last_nonempty vs Hne) as (nv & ->).
      destruct (py_index_lt ds t) as (nd & _ & ->); [lia |]. simpl. eauto.
    - apply Z.eqb_neq in E.
      destruct (py_index_lt vs (t + 1)) as (nv & _ & ->); [lia |].
      destruct (py_index_lt ds (t + 1)) as (nd & _ & ->); [lia |].
      simpl. eauto. }
  destruct En as (nv & nd & En).
  destruct (py_index_lt rs t Ht) as (r & _ & Pr).
  destruct (py_index_lt vs t) as (v & _ & Pv); [lia |].
  destruct (py_index_lt (advantages st) t) as (a0 & _ & Pa); [lia |].
  destruct (py_index_lt (returns st) t) as (r0 & _ & Pr0); [lia |].
  destruct (py_index_lt
              (<[t := gae_value h (td_delta h r nv nd v) nd (last_gae st)]>
                 (advantages st)) t) as (a1 & _ & Pa1);
    [rewrite length_insert; lia |].
  unfold gae_body. rewrite En. simpl. rewrite Pr. simpl. rewrite Pv. simpl.
  rewrite Pa. simpl. rewrite Pa1. simpl. rewrite Pr0. simpl. eauto.
Qed.

Lemma gae_loop_runs (n : nat) :
  forall st, n <= length rs -> vs <> [] -> length rs <= length vs ->
    length rs <= length ds ->
    length (advantages st) = length rs -> length (returns st) = length rs ->
    exists st', for_each (gae_body h rs vs ds) (reversed_range n) st = Ok st'.
Proof.
  induction n as [| n IH]; intros st Hn Hne Hvs Hds La Lr.
  - exists st. reflexivity.
  - rewrite reversed_range_S. simpl.
    destruct (gae_body_runs n st) as (st1 & E1); try assumption; try lia.
    rewrite E1. simpl.
    destruct (gae_body_lengths h rs vs ds n st st1 E1) as [La1 Lr1].
    apply IH; try assumption; try lia; congruence.
Qed.

Lemma gae_scan_runs :
  vs <> [] -> (rs = [] \/ (length rs <= length vs /\ length rs <= length ds)) ->
  exists st, gae_scan h rs vs ds = Ok st.
Proof.
  intros Hne Hlen. unfold gae_scan.
  destruct (py_last_nonempty vs Hne) as (b & ->). simpl.
  destruct Hlen as [-> | [Hvs Hds]].
  - eexists. reflexivity.
  - apply gae_loop_runs; auto;
      unfold np_zeros_like; simpl; now rewrite length_replicate.
Qed.

Lemma gae_scan_short_input :
  vs <> [] -> rs <> [] ->
  length vs < length rs \/ length ds < length rs ->
  gae_scan h rs vs ds = Raise IndexError.
Proof.
  intros Hne Hrs Hshort. unfold gae_scan.
  destruct (py_last_nonempty vs Hne) as (b & Eb). rewrite Eb. simpl.
  destruct (length rs) as [| n] eqn:Ln.
  { destruct rs; [contradiction | discriminate]. }
  rewrite reversed_range_S. simpl.
  replace (gae_body h rs vs ds n _) with (@Raise (gae_state F) IndexError);
    [reflexivity |].
  unfold gae_body, gae_next. rewrite Ln.
  replace (Z.of_nat n =? Z.of_nat (S n) - 1)%Z with true
    by (symmetry; apply Z.eqb_eq; lia).
  rewrite Eb. simpl.
  destruct (decide (length ds < S n)) as [Hd | Hd].
  - unfold py_index at 1. rewrite lookup_ge_None_2 by lia. reflexivity.
  - destruct (py_index_lt ds n) as (nd & _ & ->); [lia |]. simpl.
    destruct (py_index_lt rs n) as (r & _ & ->); [lia |]. simpl.
    unfold py_index at 1. rewrite lookup_ge_None_2 by lia. reflexivity.
Qed.
End GAEInputs.

(** X5.  [compute_advantages] returns exactly when [values] is not empty
    and, for a non-empty trajectory of T rewards, [values] and [dones] have
    at least T entries each; on every other input it raises IndexError.
    Longer lists and a value list without the bootstrap entry are accepted
    without complaint. *)
Theorem compute_advantages_accepts_iff {F : Type} `{Num F} `{MathLib F}
    (h : hyper F) (rs vs : list F) (ds : list bool) :
  (vs <> [] /\
   (rs = [] \/ (length rs <= length vs /\ length rs <= length ds)) ->
   exists adv ret, compute_advantages h rs vs ds = Ok (adv, ret)) /\
  (~ (vs <> [] /\
      (rs = [] \/ (length rs <= length vs /\ length rs <= length ds))) ->
   compute_advantages h rs vs ds = Raise IndexError).
Proof.
  split.
  - intros [Hne Hlen].
    destruct (gae_scan_runs h rs vs ds Hne Hlen) as (st & Est).
    unfold compute_advantages. rewrite Est. simpl. eauto.
  - intros Hbad. unfold compute_advantages.
    destruct vs as [| v0 vs'] eqn:Evs.
    + reflexivity.
    + rewrite <- Evs in *.
      assert (Hne : vs <> []) by (rewrite Evs; discriminate).
      rewrite (gae_scan_short_input h rs vs ds Hne); [reflexivity | |].
      * intros ->. apply Hbad. split; [exact Hne | now left].
      * destruct (decide (length vs < length rs)); [now left |].
        destruct (decide (length ds < length rs)); [now right |].
        exfalso. apply Hbad. split; [exact Hne | right; lia].
Qed.

Lemma compute_advantages_accepts_iff_witness :
  (exists adv ret,
     compute_advantages (F := Qc) init_hyper [of_int 1; of_int 2]
       [of_int 0; of_int 0] [false; true; true] = Ok (adv, ret)) /\
  compute_advantages (F := Qc) init_hyper [of_int 1; of_int 2]
    [of_int 0; of_int 0; of_int 0] [true] = Raise IndexError.
Proof.
  destruct (compute_advantages_accepts_iff (F := Qc) init_hyper
              [of_int 1; of_int 2] [of_int 0; of_int 0] [false; true; true])
    as [Hok _].
  destruct (compute_advantages_accepts_iff (F := Qc) init_hyper
              [of_int 1; of_int 2] [of_int 0; of_int 0; of_int 0] [true])
    as [_ Hbad].
  split.
  - apply Hok. split; [discriminate | right; simpl; lia].
  - apply Hbad. intros [_ [E | [_ E]]]; [discriminate E | simpl in E; lia].
Defined.

(** ** The scan on every accepted input *)

Section GAEGeneral.
Context {F : Type} `{Num F}.
Variable h : hyper F.
Variables (rs vs : list F) (ds : list bool).
Hypothesis Hne : vs <> [].
Hypothesis Hvs : length rs <= length vs.
Hypothesis Hds : length rs <= length ds.

Lemma gae_next_runs (t : nat) :
  t < length rs ->
  exists nv nd,
    gae_next rs vs ds t = Ok (nv, nd) /\
    (S t = length rs -> last vs = Some nv /\ ds !! t = Some nd) /\
    (S t < length rs -> vs !! S t = Some nv /\ ds !! S t = Some nd).
Proof using Hne Hvs Hds.
  intros Ht. unfold gae_next.
  destruct (Z.of_nat t =? Z.of_nat (length rs) - 1)%Z eqn:E.
  - apply Z.eqb_eq in E. unfold py_last.
    destruct (last vs) as [nv |] eqn:El;
      [| apply last_None in El; contradiction].
    destruct (py_index_lt ds t) as (nd & Ed & ->); [lia |]. simpl.
    exists nv, nd. repeat split; auto; lia.
  - apply Z.eqb_neq in E. replace (t + 1) with (S t) by lia.
    destruct (py_index_lt vs (S t)) as (nv & Ev & ->); [lia |].
    destruct (py_index_lt ds (S t)) as (nd & Ed & ->); [lia |]. simpl.
    exists nv, nd. repeat split; auto; lia.
Qed.

Lemma gae_body_inv_general (n : nat) (st : gae_state F) :
  n < length rs -> gae_inv h rs vs ds (S n) st ->
  exists st', gae_body h rs vs ds n st = Ok st' /\ gae_inv h rs vs ds n st'.
Proof using Hne Hvs Hds.
  intros Hn (La & Lr & Hl & Hat).
  destruct (gae_next_runs n Hn) as (nv & nd & En & _).
  destruct (py_index_lt rs n Hn) as (r & Er & Pr).
  destruct (py_index_lt vs n) as (v & Ev & Pv); [lia |].
  destruct (py_index_lt (advantages st) n) as (a0 & _ & Pa); [lia |].
  destruct (py_index_lt (returns st) n) as (r0 & _ & Pr0); [lia |].
  set (g := gae_value h (td_delta h r nv nd v) nd (last_gae st)).
  assert (Eg : <[n := g]> (advantages st) !! n = Some g)
    by (apply list_lookup_insert_eq; lia).
  eexists. split.
  - unfold gae_body. rewrite En. simpl. rewrite Pr. simpl. rewrite Pv. simpl.
    rewrite Pa. simpl. fold g. rewrite (py_index_lookup _ _ _ Eg). simpl.
    rewrite Pr0. simpl. reflexivity.
  - unfold gae_inv. simpl. rewrite !length_insert.
    split; [exact La |]. split; [exact Lr |]. split.
    + now rewrite Eg.
    + intros t Ht. destruct (decide (t = n)) as [-> | Hneq].
      * exists r, v, nv, nd. unfold adv_after.
        rewrite (list_lookup_insert_ne _ n (n + 1)) by lia.
        replace (n + 1) with (S n) by lia. rewrite <- Hl. fold g.
        rewrite Eg. repeat split; auto.
        apply list_lookup_insert_eq. lia.
      * destruct (Hat t) as (r' & v' & nv' & nd' & A1 & A2 & A3 & A4 & A5);
          [lia |].
        exists r', v', nv', nd'. unfold adv_after in *.
        rewrite !list_lookup_insert_ne by lia. auto.
Qed.

Lemma gae_loop_inv_general (n : nat) :
  forall st, n <= length rs -> gae_inv h rs vs ds n st ->
  exists st', for_each (gae_body h rs vs ds) (reversed_range n) st = Ok st'
              /\ gae_inv h rs vs ds 0 st'.
Proof using Hne Hvs Hds.
  induction n as [| n IH]; intros st Hn Hinv.
  - exists st. split; [reflexivity | exact Hinv].
  - rewrite reversed_range_S. simpl.
    destruct (gae_body_inv_general n st) as (st1 & E1 & I1);
      [lia | exact Hinv |].
    rewrite E1. simpl. apply IH; [lia | exact I1].
Qed.

Lemma gae_scan_inv_general :
  exists st, gae_scan h rs vs ds = Ok st /\ gae_inv h rs vs ds 0 st.
Proof using Hne Hvs Hds.
  unfold gae_scan. unfold py_last.
  destruct (last vs) as [b |] eqn:El; [| apply last_None in El; contradiction].
  simpl. apply gae_loop_inv_general; [lia |].
  unfold gae_inv, np_zeros_like. simpl. rewrite !length_replicate.
  repeat split; auto; try lia.
  rewrite lookup_ge_None_2; [reflexivity | rewrite length_replicate; lia].
Qed.
End GAEGeneral.

(** X6.  On every input it accepts (a non-empty [values], at least T values
    and T done flags) the scan bootstraps the last step from [values[-1]],
    the last entry of [values] whatever its index, and every earlier step
    from [values[t+1]].  A value list of exactly T entries, with no
    bootstrap entry, is therefore accepted, and the last step is then
    bootstrapped from its own estimate [values[T-1]]. *)
Theorem gae_scan_bootstraps_from_last_entry {F : Type} `{Num F}
    (h : hyper F) (rs vs : list F) (ds : list bool) :
  vs <> [] -> length rs <= length vs -> length rs <= length ds ->
  exists st, gae_scan h rs vs ds = Ok st /\
    forall t, t < length rs ->
      exists r v nv nd,
        rs !! t = Some r /\ vs !! t = Some v /\
        (S t = length rs -> last vs = Some nv /\ ds !! t = Some nd) /\
        (S t < length rs -> vs !! S t = Some nv /\ ds !! S t = Some nd) /\
        (S t = length rs -> length vs = length rs -> nv = v) /\
        advantages st !! t =
          Some (gae_value h (td_delta h r nv nd v) nd
                  (adv_after (advantages st) t)).
Proof.
  intros Hne Hvs Hds.
  destruct (gae_scan_inv_general h rs vs ds Hne Hvs Hds)
    as (st & Est & _ & _ & _ & Hat).
  exists st. split; [exact Est |]. intros t Ht.
  destruct (Hat t) as (r & v & nv & nd & Er & Ev & En & Ea & _); [lia |].
  destruct (gae_next_runs rs vs ds Hne Hvs Hds t Ht)
    as (nv' & nd' & En' & Hlast & Hinner).
  rewrite En in En'. injection En' as <- <-.
  exists r, v, nv, nd. repeat split; auto; try (now apply Hlast);
    try (now apply Hinner).
  intros Hs Hl. destruct (Hlast Hs) as [El _].
  rewrite last_lookup in El. replace (pred (length vs)) with t in El by lia.
  congruence.
Qed.

Lemma gae_scan_bootstraps_from_last_entry_witness :
  let rs : list Qc := [of_int 1; of_int 2] in
  let vs : list Qc := [of_int 3; of_int 4] in
  let ds := [false; false] in
  vs <> [] /\ length rs <= length vs /\ length rs <= length ds /\
  exists st, gae_scan init_hyper rs vs ds = Ok st /\
    forall t, t < length rs ->
      exists r v nv nd,
        rs !! t = Some r /\ vs !! t = Some v /\
        (S t = length rs -> last vs = Some nv /\ ds !! t = Some nd) /\
        (S t < length rs -> vs !! S t = Some nv /\ ds !! S t = Some nd) /\
        (S t = length rs -> length vs = length rs -> nv = v) /\
        advantages st !! t =
          Some (gae_value init_hyper (td_delta init_hyper r nv nd v) nd
                  (adv_after (advantages st) t)).
Proof.
  intros rs vs ds. split; [discriminate |].
  split; [simpl; lia |]. split; [simpl; lia |].
  apply (gae_scan_bootstraps_from_last_entry init_hyper rs vs ds);
    [discriminate | simpl; lia | simpl; lia].
Defined.

(** ** The entropy coefficient over the episodes *)

Section EntropyRange.
Context {F : Type} `{ExactNum F}.
Variable h : hyper F.

Add Field entropy_fld : exact_field.

Lemma clamp_top (lo hi : F) :
  ltb hi lo = false -> clamp hi lo hi = hi.
Proof. intros Hb. unfold clamp. rewrite Hb. now destruct (ltb hi hi). Qed.

Lemma clamp_bottom (lo hi : F) :
  ltb hi lo = false -> clamp lo lo hi = lo.
Proof. intros Hb. unfold clamp. rewrite Hb. now destruct (ltb lo lo). Qed.

Lemma clamp_within (x lo hi : F) :
  (forall y : F, ltb y y = false) -> ltb hi lo = false ->
  ltb (clamp x lo hi) lo = false /\ ltb hi (clamp x lo hi) = false.
Proof.
  intros Hirr Hb. unfold clamp.
  destruct (ltb x lo) eqn:E1; [now rewrite Hirr |].
  destruct (ltb hi x) eqn:E2; [now rewrite Hirr | now rewrite E1, E2].
Qed.

Lemma entropy_coef_value (episode max_episodes : Z) :
  ltb (max_entropy h) (min_entropy h) = false -> max_episodes <> 0%Z ->
  update_entropy_coef h episode max_episodes
    = Ok (coefficient_by_episodes h episode max_episodes).
Proof.
  intros Hb Hne. unfold update_entropy_coef, py_truediv.
  apply Z.eqb_neq in Hne. rewrite Hne. simpl.
  now rewrite float32_exact, np_clip_clamp.
Qed.
Lemma linear_term_at_zero (m : F) :
  sub (max_entropy h)
      (mul (sub (max_entropy h) (min_entropy h)) (div (of_int 0) m))
    = max_entropy h.
Proof. rewrite div_zero_l. ring. Qed.

Lemma linear_term_at_end (m : F) :
  m <> of_int 0 ->
  sub (max_entropy h) (mul (sub (max_entropy h) (min_entropy h)) (div m m))
    = min_entropy h.
Proof. intros Hm. now field. Qed.
End EntropyRange.

(** X7.  In exact arithmetic, with [min_entropy <= max_entropy] and an order
    test that is irreflexive, the coefficient of every episode lies between
    [min_entropy] and [max_entropy], whatever the episode index, also a
    negative one or one past [max_episodes]. *)
Theorem entropy_coef_within_bounds {F : Type} `{ExactNum F}
    (h : hyper F) (episode max_episodes : Z) :
  (forall y : F, ltb y y = false) ->
  ltb (max_entropy h) (min_entropy h) = false ->
  max_episodes <> 0%Z ->
  exists c, update_entropy_coef h episode max_episodes = Ok c /\
            ltb c (min_entropy h) = false /\
            ltb (max_entropy h) c = false.
Proof.
  intros Hirr Hb Hne. eexists. split.
  - now apply entropy_coef_value.
  - now apply clamp_within.
Qed.

Lemma entropy_coef_within_bounds_witness :
  (forall y : Qc, ltb y y = false) /\
  ltb (max_entropy (F := Qc) init_hyper) (min_entropy init_hyper) = false /\
  exists c : Qc, update_entropy_coef init_hyper 700 500 = Ok c /\
                 ltb c (min_entropy init_hyper) = false /\
                 ltb (max_entropy init_hyper) c = false.
Proof.
  assert (Hirr : forall y : Qc, ltb y y = false).
  { intros y. simpl. apply negb_false_iff, Qle_bool_iff, Qle_refl. }
  split; [exact Hirr |]. split; [reflexivity |].
  apply (entropy_coef_within_bounds (F := Qc) init_hyper 700 500);
    [exact Hirr | reflexivity | discriminate].
Defined.

(** X8.  In exact arithmetic, with [min_entropy <= max_entropy] and
    [max_episodes > 0], the coefficient is [max_entropy] at episode 0 and
    would be [min_entropy] at episode [max_episodes]. *)
Theorem entropy_coef_endpoints {F : Type} `{ExactNum F}
    (h : hyper F) (max_episodes : Z) :
  ltb (max_entropy h) (min_entropy h) = false ->
  (0 < max_episodes)%Z ->
  update_entropy_coef h 0 max_episodes = Ok (max_entropy h) /\
  update_entropy_coef h max_episodes max_episodes = Ok (min_entropy h).
Proof.
  intros Hb Hpos.
  assert (Hm : of_int max_episodes <> of_int 0) by now apply of_int_pos.
  rewrite !entropy_coef_value by (auto; lia).
  unfold coefficient_by_episodes. split; f_equal.
  - rewrite linear_term_at_zero. now apply clamp_top.
  - rewrite linear_term_at_end by exact Hm. now apply clamp_bottom.
Qed.

Lemma entropy_coef_endpoints_witness :
  ltb (max_entropy (F := Qc) init_hyper) (min_entropy init_hyper) = false /\
  (0 < 500)%Z /\
  update_entropy_coef (F := Qc) init_hyper 0 500
    = Ok (max_entropy init_hyper) /\
  update_entropy_coef (F := Qc) init_hyper 500 500
    = Ok (min_entropy init_hyper).
Proof.
  split; [reflexivity |]. split; [reflexivity |].
  apply (entropy_coef_endpoints (F := Qc) init_hyper 500); reflexivity.
Defined.

(** ** The coefficient on the rationals *)

Lemma Qc_of_int_le (a b : Z) : (a <= b)%Z -> (of_int a <= of_int b)%Qc.
Proof.
  intros Hab. unfold Qcle. rewrite !Qc_of_int_this. now rewrite <- Zle_Qle.
Qed.

Lemma Qc_of_int_pos (a : Z) : (0 < a)%Z -> (0 < of_int a)%Qc.
Proof.
  intros Ha. unfold Qclt. rewrite Qc_of_int_this.
  change (this 0%Qc) with (inject_Z 0). now rewrite <- Zlt_Qlt.
Qed.

Lemma Qc_fmax_mono (x x' lo : Qc) :
  (x' <= x)%Qc -> (fmax x' lo <= fmax x lo)%Qc.
Proof.
  intros Hx. simpl.
  destruct (Qle_bool lo x') eqn:E1; destruct (Qle_bool lo x) eqn:E2; simpl.
  - exact Hx.
  - apply Qle_bool_iff in E1. apply not_true_iff_false in E2.
    exfalso. apply E2. apply Qle_bool_iff.
    exact (Qcle_trans lo x' x E1 Hx).
  - apply Qle_bool_iff in E2. exact E2.
  - apply Qcle_refl.
Qed.

Lemma Qc_fmin_mono (a a' hi : Qc) :
  (a' <= a)%Qc -> (fmin a' hi <= fmin a hi)%Qc.
Proof.
  intros Ha. simpl.
  destruct (Qle_bool a' hi) eqn:E1; destruct (Qle_bool a hi) eqn:E2; simpl.
  - exact Ha.
  - apply Qle_bool_iff in E1. exact E1.
  - apply Qle_bool_iff in E2. apply not_true_iff_false in E1.
    exfalso. apply E1. apply Qle_bool_iff.
    exact (Qcle_trans a' a hi Ha E2).
  - apply Qcle_refl.
Qed.

Lemma Qc_div_mono (a b m : Qc) :
  (0 < m)%Qc -> (a <= b)%Qc -> (a / m <= b / m)%Qc.
Proof.
  intros Hm Hab. apply (Qcmult_lt_0_le_reg_r _ _ m Hm).
  assert (Hne : m <> 0%Qc) by (intros ->; now apply (Qclt_not_eq 0 0)).
  rewrite !(Qcmult_comm _ m), !Qcmult_div_r by exact Hne. exact Hab.
Qed.

(** X9.  On the rationals, with [min_entropy <= max_entropy] and
    [max_episodes > 0], the coefficient does not increase from one episode
    to a later one. *)
Theorem entropy_coef_nonincreasing (h : hyper Qc)
    (episode episode' max_episodes : Z) :
  (min_entropy h <= max_entropy h)%Qc ->
  (0 < max_episodes)%Z -> (episode <= episode')%Z ->
  exists c c' : Qc,
    update_entropy_coef h episode max_episodes = Ok c /\
    update_entropy_coef h episode' max_episodes = Ok c' /\
    (c' <= c)%Qc.
Proof.
  intros Hb Hpos Hle.
  assert (Hv : forall e,
             update_entropy_coef h e max_episodes
             = Ok (np_clip (max_entropy h - (max_entropy h - min_entropy h)
                              * (of_int e / of_int max_episodes))%Qc
                           (min_entropy h) (max_entropy h))).
  { intros e. unfold update_entropy_coef, py_truediv.
    replace (max_episodes =? 0)%Z with false
      by (symmetry; apply Z.eqb_neq; lia).
    reflexivity. }
  do 2 eexists. split; [apply Hv |]. split; [apply Hv |].
  unfold np_clip. apply Qc_fmin_mono, Qc_fmax_mono.
  unfold Qcminus at 1 3. apply Qcplus_le_compat; [apply Qcle_refl |].
  apply Qcopp_le_compat.
  rewrite !(Qcmult_comm (max_entropy h - min_entropy h)).
  apply Qcmult_le_compat_r.
  - apply Qc_div_mono; [now apply Qc_of_int_pos | now apply Qc_of_int_le].
  - unfold Qcminus. exact (proj1 (Qcle_minus_iff _ _) Hb).
Qed.

Lemma entropy_coef_nonincreasing_witness :
  (min_entropy (F := Qc) init_hyper <= max_entropy init_hyper)%Qc /\
  exists c c' : Qc,
    update_entropy_coef init_hyper 3 500 = Ok c /\
    update_entropy_coef init_hyper 4 500 = Ok c' /\
    (c' <= c)%Qc.
Proof.
  assert (Hb : (min_entropy (F := Qc) init_hyper <= max_entropy init_hyper)%Qc)
    by (unfold Qcle; apply Qle_bool_iff; vm_compute; reflexivity).
  split; [exact Hb |].
  apply (entropy_coef_nonincreasing init_hyper 3 4 500); [exact Hb | lia | lia].
Defined.

(** ** Invariants of the rollout *)

Section RolloutInvariants.
Context {F : Type} `{Num F} `{MathLib F}.
Variable C : collab F.

(** A property of the loop's variables kept by every pass holds, in the
    form the pass gives it, when the loop is left. *)
Lemma rollout_invariant (P : loop_state C -> Prop)
    (Q : rollout_end C -> Prop) :
  (forall st o, P st -> rollout_iter C st = Ok o ->
     match o with
     | Continue st' => P st'
     | Break fin => Q fin
     end) ->
  forall fuel st fin, P st -> rollout C fuel st = Ok fin -> Q fin.
Proof.
  intros Hstep. induction fuel as [| fuel IH]; intros st fin HP E; simpl in E.
  - discriminate E.
  - destruct (rollout_iter C st) as [o | |] eqn:Eo; try discriminate E.
    simpl in E. pose proof (Hstep st o HP Eo) as Ho.
    destruct o as [st' | fin'].
    + exact (IH st' fin Ho E).
    + now inversion E; subst.
Qed.

Lemma np_reshape_row_shape (d : nat) (A B : tensor F) :
  np_reshape_row d A = Ok B -> exists row, B = [row] /\ length row = d.
Proof.
  unfold np_reshape_row. destruct (length (concat A) =? d) eqn:E;
    [| discriminate].
  intros Q. inversion Q; subst. eexists. split; [reflexivity |].
  now apply Nat.eqb_eq.
Qed.

Lemma start_episode_state (ts : train_state C) (st : loop_state C) :
  start_episode C ts = Ok st ->
  lp_traj st = empty_traj C /\ lp_reward st = of_int 0 /\
  lp_agent st = ts_agent ts /\
  exists row, lp_state st = [row] /\ length row = state_dim (ts_agent ts).
Proof.
  unfold start_episode. intros E. bind_inv E.
  inversion E; subst; clear E. simpl. repeat split.
  match goal with
  | Hq : np_reshape_row _ _ = Ok _ |- _ => exact (np_reshape_row_shape _ _ _ Hq)
  end.
Qed.

Lemma np_sum_snoc (xs : list F) (x : F) :
  np_sum (xs ++ [x]) = add (np_sum xs) x.
Proof. unfold np_sum. now rewrite foldl_app. Qed.

(** The done flags recorded so far: all false but, when the loop has been
    left by its test, the last. *)
Definition dones_shape (aborted : bool) (ds : list bool) : Prop :=
  if aborted then Forall (fun d => d = false) ds
  else exists pre, ds = pre ++ [true] /\ Forall (fun d => d = false) pre.

(** One row of [d] entries per state, and as many entries in every list. *)
Definition batch_shape (d : nat) (tr : traj C) : Prop :=
  Forall (fun s => exists row, s = [row] /\ length row = d) (states tr) /\
  length (states tr) = length (rewards tr) /\
  length (actions tr) = length (rewards tr) /\
  length (probs tr) = length (rewards tr) /\
  length (raw_actions tr) = length (rewards tr).

Lemma rollout_iter_reward (st : loop_state C) (o : iter_outcome C) :
  lp_reward st = np_sum (rewards (lp_traj st)) ->
  rollout_iter C st = Ok o ->
  match o with
  | Continue st' => lp_reward st' = np_sum (rewards (lp_traj st'))
  | Break fin => end_reward fin = np_sum (rewards (end_traj fin))
  end.
Proof.
  intros Hr E. unfold rollout_iter in E. bind_inv E;
    inversion E; subst; clear E; simpl;
    rewrite ?np_sum_snoc; congruence.
Qed.

Lemma rollout_iter_dones (st : loop_state C) (o : iter_outcome C) :
  Forall (fun d => d = false) (dones (lp_traj st)) ->
  rollout_iter C st = Ok o ->
  match o with
  | Continue st' => Forall (fun d => d = false) (dones (lp_traj st'))
  | Break fin => dones_shape (end_aborted fin) (dones (end_traj fin))
  end.
Proof.
  intros Hd E. unfold rollout_iter in E. bind_inv E;
    inversion E; subst; clear E; simpl.
  - exact Hd.
  - exists (dones (lp_traj st)). now split.
  - apply Forall_app. split; [exact Hd | now constructor].
Qed.

Lemma rollout_iter_batch (st : loop_state C) (o : iter_outcome C) (d : nat) :
  (state_dim (lp_agent st) = d /\
   (exists row, lp_state st = [row] /\ length row = d) /\
   batch_shape d (lp_traj st)) ->
  rollout_iter C st = Ok o ->
  match o with
  | Continue st' =>
      state_dim (lp_agent st') = d /\
      (exists row, lp_state st' = [row] /\ length row = d) /\
      batch_shape d (lp_traj st')
  | Break fin => state_dim (end_agent fin) = d /\ batch_shape d (end_traj fin)
  end.
Proof.
  intros (Hdim & Hst & Hs & L1 & L2 & L3 & L4) E.
  unfold rollout_iter in E. bind_inv E;
    inversion E; subst; clear E; simpl.
  - split; [reflexivity |]. repeat split; assumption.
  - split; [reflexivity |]. unfold batch_shape. simpl.
    rewrite !length_app. simpl. repeat split; try lia.
    apply Forall_app. split; [exact Hs | now constructor].
  - split; [reflexivity |]. split.
    + match goal with
      | Hq : np_reshape_row _ _ = Ok _ |- _ =>
          exact (np_reshape_row_shape _ _ _ Hq)
      end.
    + unfold batch_shape. simpl. rewrite !length_app. simpl.
      repeat split; try lia.
      apply Forall_app. split; [exact Hs | now constructor].
Qed.

Lemma np_vstack_rows (d : nat) (l : list (tensor F)) (X : tensor F) :
  Forall (fun s => exists row, s = [row] /\ length row = d) l ->
  np_vstack l = Ok X ->
  length X = length l /\ Forall (fun row => length row = d) X.
Proof.
  intros Hl E. unfold np_vstack in E.
  assert (EX : X = concat l) by (destruct l; [discriminate E | now inversion E]).
  subst X. clear E. induction Hl as [| s l (row & -> & Hrow) Hl IH].
  - split; [reflexivity | constructor].
  - destruct IH as [IH1 IH2]. simpl. split; [now rewrite IH1 |].
    now constructor.
Qed.
End RolloutInvariants.

(** X10.  The episode reward the loop hands on, which [train] appends to
    [all_rewards], is the sum, taken in order from 0, of the rewards of the
    recorded steps; the reward of a step dropped by the NaN break is not in
    it. *)
Theorem episode_reward_sums_recorded_rewards {F : Type} `{Num F}
    `{MathLib F} (C : collab F) (fuel : nat) (ts : train_state C)
    (st : loop_state C) (fin : rollout_end C) :
  start_episode C ts = Ok st ->
  rollout C fuel st = Ok fin ->
  end_reward fin = np_sum (rewards (end_traj fin)).
Proof.
  intros Es Er.
  destruct (start_episode_state C ts st Es) as (Et & E0 & _).
  apply (rollout_invariant C
           (fun st => lp_reward st = np_sum (rewards (lp_traj st)))
           (fun fin => end_reward fin = np_sum (rewards (end_traj fin))))
    with (fuel := fuel) (st := st).
  - intros st' o HP Eo. exact (rollout_iter_reward C st' o HP Eo).
  - now rewrite Et, E0.
  - exact Er.
Qed.

Lemma episode_reward_sums_recorded_rewards_witness :
  let C := scripted f_zero [[f_zero]] in
  let ts := scripted_start f_zero [[f_zero]] script_nan_second in
  exists st fin,
    start_episode C ts = Ok st /\
    rollout C 5 st = Ok fin /\
    rewards (end_traj fin) = [f_one] /\
    end_reward fin = np_sum (rewards (end_traj fin)).
Proof.
  intros C ts. do 2 eexists.
  split; [lazy; reflexivity |]. split; [lazy; reflexivity |].
  split; [reflexivity |].
  eapply (episode_reward_sums_recorded_rewards C 5 ts); lazy; reflexivity.
Defined.

(** X11.  In the trajectory of an episode every recorded done flag but the
    last is false.  When the loop was left by its test the last flag is
    true; when it was left by the NaN break all flags are false, the last
    one too. *)
Theorem recorded_dones_false_but_last {F : Type} `{Num F} `{MathLib F}
    (C : collab F) (fuel : nat) (ts : train_state C) (st : loop_state C)
    (fin : rollout_end C) :
  start_episode C ts = Ok st ->
  rollout C fuel st = Ok fin ->
  (end_aborted fin = true ->
   Forall (fun d => d = false) (dones (end_traj fin))) /\
  (end_aborted fin = false ->
   exists pre, dones (end_traj fin) = pre ++ [true] /\
               Forall (fun d => d = false) pre).
Proof.
  intros Es Er.
  destruct (start_episode_state C ts st Es) as (Et & _).
  assert (Hs : dones_shape (end_aborted fin) (dones (end_traj fin))).
  { apply (rollout_invariant C
             (fun st => Forall (fun d => d = false) (dones (lp_traj st)))
             (fun fin => dones_shape (end_aborted fin) (dones (end_traj fin))))
      with (fuel := fuel) (st := st).
    - intros st' o HP Eo. exact (rollout_iter_dones C st' o HP Eo).
    - rewrite Et. constructor.
    - exact Er. }
  unfold dones_shape in Hs. split; intros Ha; now rewrite Ha in Hs.
Qed.

Lemma recorded_dones_false_but_last_witness :
  let C := scripted f_zero [[f_zero; f_zero]] in
  let ts := scripted_start f_zero [[f_zero; f_zero]] script_two_steps in
  exists st fin,
    start_episode C ts = Ok st /\
    rollout C 5 st = Ok fin /\
    end_aborted fin = false /\
    exists pre, dones (end_traj fin) = pre ++ [true] /\
                Forall (fun d => d = false) pre.
Proof.
  intros C ts. do 2 eexists.
  split; [lazy; reflexivity |]. split; [lazy; reflexivity |].
  split; [reflexivity |].
  eapply (recorded_dones_false_but_last C 5 ts);
    [lazy; reflexivity | lazy; reflexivity | reflexivity].
Defined.

(** X12.  The batch [train] hands to [update]: the stacked states have one
    row per recorded step, each of [state_dim] entries, and the actions, the
    old log-probabilities and the raw actions have one entry per recorded
    step. *)
Theorem update_batch_is_one_row_per_step {F : Type} `{Num F} `{MathLib F}
    (C : collab F) (fuel : nat) (ts : train_state C) (st : loop_state C)
    (fin : rollout_end C) (X : tensor F) :
  start_episode C ts = Ok st ->
  rollout C fuel st = Ok fin ->
  np_vstack (states (end_traj fin)) = Ok X ->
  length X = length (rewards (end_traj fin)) /\
  Forall (fun row => length row = state_dim (ts_agent ts)) X /\
  state_dim (end_agent fin) = state_dim (ts_agent ts) /\
  length (actions (end_traj fin)) = length (rewards (end_traj fin)) /\
  length (probs (end_traj fin)) = length (rewards (end_traj fin)) /\
  length (raw_actions (end_traj fin)) = length (rewards (end_traj fin)).
Proof.
  intros Es Er EX.
  destruct (start_episode_state C ts st Es) as (Et & _ & Ea & Hrow).
  set (d := state_dim (ts_agent ts)) in *.
  assert (Hb : state_dim (end_agent fin) = d /\ batch_shape C d (end_traj fin)).
  { apply (rollout_invariant C
             (fun st => state_dim (lp_agent st) = d /\
                        (exists row, lp_state st = [row] /\ length row = d) /\
                        batch_shape C d (lp_traj st))
             (fun fin => state_dim (end_agent fin) = d /\
                         batch_shape C d (end_traj fin)))
      with (fuel := fuel) (st := st).
    - intros st' o HP Eo. exact (rollout_iter_batch C st' o d HP Eo).
    - rewrite Et, Ea. split; [reflexivity |]. split; [exact Hrow |].
      unfold batch_shape. simpl. repeat split. constructor.
    - exact Er. }
  destruct Hb as (Hd & Hs & L1 & L2 & L3 & L4).
  destruct (np_vstack_rows d _ X Hs EX) as [LX FX].
  repeat split; try assumption. congruence.
Qed.

Lemma update_batch_is_one_row_per_step_witness :
  let C := scripted f_zero [[f_zero; f_zero]] in
  let ts := scripted_start f_zero [[f_zero; f_zero]] script_two_steps in
  exists st fin X,
    start_episode C ts = Ok st /\
    rollout C 5 st = Ok fin /\
    np_vstack (states (end_traj fin)) = Ok X /\
    length X = length (rewards (end_traj fin)) /\
    Forall (fun row => length row = state_dim (ts_agent ts)) X.
Proof.
  intros C ts. do 3 eexists.
  split; [lazy; reflexivity |]. split; [lazy; reflexivity |].
  split; [lazy; reflexivity |].
  edestruct (update_batch_is_one_row_per_step C 5 ts) as (A & B & _);
    [lazy; reflexivity | lazy; reflexivity | lazy; reflexivity |].
  split; [exact A | exact B].
Defined.

(** ** Episodes of the training loop *)

Section EpisodeProps.
Context {F : Type} `{Num F} `{MathLib F}.
Variable C : collab F.

Lemma compute_advantages_empty (h : hyper F) (v : F) :
  compute_advantages h [] [v] [] = Ok ([], []).
Proof. reflexivity. Qed.

Lemma update_entropy_coef_defined (h : hyper F) (episode max_episodes : Z) :
  max_episodes <> 0%Z ->
  exists c, update_entropy_coef h episode max_episodes = Ok c.
Proof.
  intros Hne. unfold update_entropy_coef, py_truediv.
  apply Z.eqb_neq in Hne. rewrite Hne. simpl. eauto.
Qed.

Lemma run_episode_appends (fuel : nat) (max_episodes : Z) (episode : nat)
    (ts ts' : train_state C) :
  run_episode C fuel max_episodes episode ts = Ok ts' ->
  exists r, all_rewards ts' = all_rewards ts ++ [r].
Proof.
  unfold run_episode. intros E. bind_inv E. inversion E; subst. simpl. eauto.
Qed.

Lemma train_from_appends (fuel : nat) (max_episodes : Z)
    (episodes : list nat) :
  forall ts ts',
    train_from C fuel max_episodes episodes ts = Ok ts' ->
    exists l, all_rewards ts' = all_rewards ts ++ l /\
              length l = length episodes.
Proof.
  induction episodes as [| ep episodes IH]; intros ts ts' E.
  - inversion E; subst. exists []. split; [now rewrite app_nil_r | reflexivity].
  - rewrite train_from_cons in E.
    destruct (run_episode C fuel max_episodes ep ts) as [ts1 | |] eqn:E1;
      try discriminate E.
    simpl in E. destruct (run_episode_appends _ _ _ _ _ E1) as (r & Hr).
    destruct (IH ts1 ts' E) as (l & Hl & Ll).
    exists (r :: l). split; [| simpl; now rewrite Ll].
    rewrite Hl, Hr. now rewrite <- app_assoc.
Qed.
End EpisodeProps.

(** X13.  When the environment returns a state with a NaN at the very first
    step of an episode, and the critic evaluates that state, the episode
    raises ValueError: nothing was recorded, and [np.vstack] of the empty
    list of states fails before [update] is called.  The training loop ends
    with that error. *)
Theorem nan_at_first_step_raises {F : Type} `{Num F} `{MathLib F}
    (C : collab F) (fuel : nat) (max_episodes : Z) (episode : nat)
    (rest : list nat) (ts : train_state C) (st : loop_state C)
    action log_prob raw_action a' ns reward done e' (v : F) :
  max_episodes <> 0%Z ->
  start_episode C ts = Ok st ->
  get_action C (lp_agent st) (lp_state st)
    = Ok (action, log_prob, raw_action, a') ->
  env_step C (lp_env st) action = Ok (ns, reward, done, e') ->
  np_isnan_any ns = true ->
  critic_scalar C (with_actor C (lp_agent st) a') ns = Ok v ->
  run_episode C (S fuel) max_episodes episode ts = Raise ValueError /\
  train_from C (S fuel) max_episodes (episode :: rest) ts = Raise ValueError.
Proof.
  intros Hne Es Ea Ee En Ev.
  pose proof (rollout_iter_nan C st _ _ _ _ _ _ _ _ Ea Ee En) as Ei.
  destruct (start_episode_state C ts st Es) as (Et & _).
  assert (Er : run_episode C (S fuel) max_episodes episode ts
               = Raise ValueError).
  { rewrite (run_episode_learn C (S fuel) max_episodes episode ts st _ Es)
      by (simpl; rewrite Ei; reflexivity).
    unfold learn, bootstrap_values. simpl. rewrite Ev. simpl. rewrite Et.
    simpl rewards. simpl dones. simpl values_learned. simpl app.
    rewrite compute_advantages_empty. simpl bind.
    destruct (update_entropy_coef_defined (hp (lp_agent st))
                (Z.of_nat episode) max_episodes Hne) as (c & ->).
    reflexivity. }
  split; [exact Er |]. rewrite train_from_cons, Er. reflexivity.
Qed.

Lemma nan_at_first_step_raises_witness :
  let C := scripted f_zero [[f_zero]] in
  let ts := scripted_start f_zero [[f_zero]] script_nan_first in
  np_isnan_any [[f_nan]] = true /\
  run_episode C 5 500 0 ts = Raise ValueError /\
  train_from C 5 500 [0; 1] ts = Raise ValueError.
Proof.
  intros C ts. split; [reflexivity |].
  eapply (nan_at_first_step_raises C 4 500 0 [1] ts);
    [discriminate | lazy; reflexivity ..].
Defined.

(** X14.  When the training loop completes, [all_rewards] has gained exactly
    one entry per episode, after the entries it had. *)
Theorem train_records_one_reward_per_episode {F : Type} `{Num F}
    `{MathLib F} (C : collab F) (fuel max_episodes : nat)
    (ts ts' : train_state C) :
  train C fuel max_episodes ts = Ok ts' ->
  exists l, all_rewards ts' = all_rewards ts ++ l /\
            length l = max_episodes.
Proof.
  unfold train. intros E.
  destruct (train_from_appends C _ _ _ _ _ E) as (l & Hl & Ll).
  exists l. split; [exact Hl |]. now rewrite Ll, length_seq.
Qed.

Lemma train_records_one_reward_per_episode_witness :
  let C := scripted f_zero [[f_zero; f_zero]] in
  let ts := scripted_start f_zero [[f_zero; f_zero]] script_two_steps in
  exists ts',
    train C 5 1 ts = Ok ts' /\
    exists l, all_rewards ts' = all_rewards ts ++ l /\ length l = 1.
Proof.
  intros C ts. eexists. split; [lazy; reflexivity |].
  eapply (train_records_one_reward_per_episode C 5 1 ts). lazy; reflexivity.
Defined.

(** ** The surrogate inside the clip range *)

(** [-tf.reduce_mean(ratios * advantages)], the objective without the
    clipped term. *)
Definition unclipped_surrogate {F : Type} `{Num F}
    (ratios advantages : tensor F) : result F :=
  let* surrogate1 := broadcast mul ratios advantages in
  Ok (neg (reduce_mean surrogate1)).

Section ClipRange.
Context {F : Type} `{ExactNum F}.

(** [r] rows of [c] entries. *)
Definition rect (r c : nat) (A : tensor F) : Prop :=
  length A = r /\ Forall (fun row => length row = c) A.

Lemma broadcast_rect (f : F -> F -> F) (A B T : tensor F) :
  broadcast f A B = Ok T -> exists r c, rect r c T.
Proof.
  unfold broadcast, bind.
  destruct (bdim (rows A) (rows B)) as [r | |]; try discriminate.
  destruct (bdim (cols A) (cols B)) as [c | |]; try discriminate.
  intros E. inversion E; subst; clear E. exists r, c. split.
  - now rewrite length_map, length_seq.
  - apply Forall_map, Forall_forall. intros i _.
    now rewrite length_map, length_seq.
Qed.

Lemma row_rebuild (row : list F) (d : F) :
  map (fun j => nth j row d) (seq 0 (length row)) = row.
Proof.
  rewrite (map_nth_seq (fun x => x) row d). apply map_id.
Qed.

Lemma tensor_rebuild (r c : nat) (A : tensor F) :
  rect r c A ->
  map (fun i => map (fun j => tget A i j) (seq 0 c)) (seq 0 r) = A.
Proof.
  intros [Hr Hc]. subst r. unfold tget.
  rewrite (map_nth_seq (fun row => map (fun j => nth j row (of_int 0))
                                       (seq 0 c)) A []).
  induction Hc as [| row A Hrow Hc IH]; [reflexivity |].
  simpl. rewrite IH. f_equal. rewrite <- Hrow. apply row_rebuild.
Qed.

Lemma cols_rect (r c : nat) (A : tensor F) :
  rect (S r) c A -> cols A = c.
Proof.
  intros [Hr Hc]. destruct A as [| row A]; [discriminate Hr |].
  simpl. now inversion Hc.
Qed.

Lemma broadcast_fmin_self (r c : nat) (A : tensor F) :
  rect r c A -> broadcast fmin A A = Ok A.
Proof.
  intros HA. unfold broadcast. rewrite !bdim_same. simpl bind. f_equal.
  destruct r as [| r].
  - destruct HA as [Hr _]. destruct A; [reflexivity | discriminate Hr].
  - rewrite (cols_rect r c A HA).
    assert (Hrows : rows A = S r) by apply HA. rewrite Hrows.
    transitivity (map (fun i => map (fun j => tget A i j) (seq 0 c))
                      (seq 0 (S r)));
      [| now apply tensor_rebuild].
    apply map_ext_in. intros i Hi. apply in_seq in Hi.
    apply map_ext_in. intros j Hj. apply in_seq in Hj.
    rewrite fmin_same, !bidx_lt by lia. reflexivity.
Qed.

Lemma clip_by_value_inside (lo hi x : F) :
  ltb x lo = false -> ltb hi x = false -> clip_by_value lo hi x = x.
Proof.
  intros Hlo Hhi. unfold clip_by_value.
  now rewrite fmin_ltb, Hhi, fmax_ltb, Hlo.
Qed.

Lemma tmap_clip_inside (lo hi : F) (A : tensor F) :
  Forall (Forall (fun x => ltb x lo = false /\ ltb hi x = false)) A ->
  tmap (clip_by_value lo hi) A = A.
Proof.
  unfold tmap. induction 1 as [| row A Hrow HA IH]; [reflexivity |].
  simpl. rewrite IH. f_equal.
  induction Hrow as [| x row [Hlo Hhi] Hrow IHr]; [reflexivity |].
  simpl. now rewrite IHr, clip_by_value_inside.
Qed.
End ClipRange.

(** X15.  In exact arithmetic, when every ratio lies within
    [1 - epsilon, 1 + epsilon], the clipped surrogate objective of [update]
    is the unclipped one, [-mean(ratios * advantages)]: the clip changes
    nothing, whatever the advantages. *)
Theorem surrogate_unclipped_inside_range {F : Type} `{ExactNum F}
    (h : hyper F) (ratios advantages : tensor F) :
  Forall (Forall (fun x =>
            ltb x (sub (of_int 1) (epsilon h)) = false /\
            ltb (add (of_int 1) (epsilon h)) x = false)) ratios ->
  clipped_surrogate h ratios advantages
    = unclipped_surrogate ratios advantages.
Proof.
  intros Hin. unfold clipped_surrogate, unclipped_surrogate.
  rewrite (tmap_clip_inside _ _ ratios Hin).
  destruct (broadcast mul ratios advantages) as [s | e |] eqn:Es;
    [| reflexivity | reflexivity].
  simpl. destruct (broadcast_rect mul ratios advantages s Es) as (r & c & Hs).
  now rewrite (broadcast_fmin_self r c s Hs).
Qed.

Lemma surrogate_unclipped_inside_range_witness :
  let ratios : tensor Qc := vec [of_int 1; div (of_int 11) (of_int 10)] in
  let advantages : tensor Qc := vec [of_int 2; of_int (-3)] in
  Forall (Forall (fun x =>
            ltb x (sub (of_int 1) (epsilon init_hyper)) = false /\
            ltb (add (of_int 1) (epsilon init_hyper)) x = false)) ratios /\
  clipped_surrogate init_hyper ratios advantages
    = unclipped_surrogate ratios advantages.
Proof.
  intros ratios advantages.
  assert (Hin : Forall (Forall (fun x : Qc =>
            ltb x (sub (of_int 1) (epsilon init_hyper)) = false /\
            ltb (add (of_int 1) (epsilon init_hyper)) x = false)) ratios).
  { repeat constructor. }
  split; [exact Hin |].
  exact (surrogate_unclipped_inside_range init_hyper ratios advantages Hin).
Defined.

(** ** The value loss over a batch *)

(** X16.  When the critic answers a batch of T states with a tensor of shape
    (T, 1), the loss of the second tape in [update] is the mean, over all
    T * T pairs (i, j), of [(returns[j] - values[i])^2], the returns being
    cast to float32: every return is compared with every value estimate. *)
Theorem value_loss_is_mean_over_all_pairs {F : Type} `{Num F} `{MathLib F}
    (C : collab F) (c : Critic C) (states : tensor F) (rets vals : list F) :
  critic_call C c states true = Ok (col vals) ->
  length rets = length vals ->
  critic_loss C states (to_tensor32 rets) c
    = Ok (np_mean (concat (map (fun v =>
                     map (fun r => mul (sub r v) (sub r v))
                         (map float32 rets)) vals))).
Proof.
  intros Ec Hlen. unfold critic_loss. rewrite Ec. simpl bind.
  unfold to_tensor32. apply critic_loss_of_column.
  now rewrite length_map.
Qed.

Lemma value_loss_is_mean_over_all_pairs_witness :
  let C := scripted f_zero [[f_zero; f_zero]] in
  let states : tensor float := [[f_zero]; [f_one]] in
  let rets := [f_one; f_zero] in
  let vals := [f_zero; f_zero] in
  critic_call C tt states true = Ok (col vals) /\
  length rets = length vals /\
  critic_loss C states (to_tensor32 rets) tt
    = Ok (np_mean (concat (map (fun v =>
                     map (fun r => mul (sub r v) (sub r v))
                         (map float32 rets)) vals))).
Proof.
  intros C states rets vals. split; [reflexivity |]. split; [reflexivity |].
  apply (value_loss_is_mean_over_all_pairs C tt states rets vals);
    reflexivity.
Defined.
